(** * fusion-cli build orchestration ([build/compiler.js])

    A shallow embedding of the stats reporter ([getStatsLogger]), the
    profile assembly and the public methods of [Compiler] ([on], [start],
    [getMiddleware], [clean]), followed by the properties the design
    document states about them. *)

From Stdlib Require Import ZArith NArith List String Ascii Bool Lia DecimalString.
From stdpp Require Import gmap list sorting.
Import ListNotations.

Local Open Scope N_scope.

(** ** JavaScript strings

    A JavaScript string is a sequence of UTF-16 code units.  The regular
    expression of [dedupeErrors] distinguishes code units above the
    Latin-1 range (U+2028 and U+2029), so code units are kept as numbers. *)

Abbreviation jsstring := (list N).

Definition str (s : string) : jsstring :=
  map (fun a => N_of_ascii a) (list_ascii_of_string s).

Arguments str : simpl never.

(** [s.startsWith(pre)] and [s.endsWith(suffix)]. *)
Fixpoint startsWith (s pre : jsstring) : bool :=
  match pre, s with
  | [], _ => true
  | p :: pre', c :: s' => (c =? p) && startsWith s' pre'
  | _ :: _, [] => false
  end.

Definition endsWith (s suffix : jsstring) : bool :=
  startsWith (rev s) (rev suffix).

(** A string is truthy when it is not empty. *)
Definition truthy_str (s : jsstring) : bool :=
  match s with [] => false | _ :: _ => true end.

(** ** The regular expression of [dedupeErrors]

    [/BabelLoaderError(.|\n)+( {4}at transpile)/gim], used with
    [String.prototype.replace] and the replacement ['$2']. *)
Module Re.

(** Case folding of the [i] flag.  Both literals of the pattern are
    ASCII, and a code unit outside ASCII never folds to an ASCII one
    (ECMAScript Canonicalize, non-unicode mode), so folding the ASCII
    lower-case letters is exact for this pattern. *)
Definition canonicalize (c : N) : N :=
  if (97 <=? c) && (c <=? 122) then c - 32 else c.

Definition ciEq (p c : N) : bool := canonicalize c =? canonicalize p.

(** Match a literal, ignoring case, at the head of [s]: the matched
    text (with the case it has in [s]) and the rest of [s]. *)
Fixpoint matchLit (lit s : jsstring) : option (jsstring * jsstring) :=
  match lit with
  | [] => Some ([], s)
  | p :: lit' =>
      match s with
      | [] => None
      | c :: s' =>
          if ciEq p c then
            match matchLit lit' s' with
            | Some (m, rest) => Some (c :: m, rest)
            | None => None
            end
          else None
      end
  end.

Definition marker : jsstring := str "BabelLoaderError".
Definition atTranspile : jsstring := str "    at transpile".

(** [.] matches every code unit but the line terminators LF, CR,
    U+2028 and U+2029; the alternative [\n] adds LF back. *)
Definition isLineTerminator (c : N) : bool :=
  (c =? 10) || (c =? 13) || (c =? 8232) || (c =? 8233).

Definition dotOrNl (c : N) : bool :=
  negb (isLineTerminator c) || (c =? 10).

(** [(.|\n)+( {4}at transpile)] at the head of [s].  The quantifier is
    greedy: the engine first takes as many code units as it can and
    gives them back one at a time, so the match found is the one with
    the longest run.  Returns the text of group 2 and the rest. *)
Fixpoint plusThenTrace (s : jsstring) : option (jsstring * jsstring) :=
  match s with
  | [] => None
  | c :: s' =>
      if dotOrNl c then
        match plusThenTrace s' with
        | Some r => Some r
        | None => matchLit atTranspile s'
        end
      else None
  end.

(** The whole pattern at the head of [s]. *)
Definition matchAt (s : jsstring) : option (jsstring * jsstring) :=
  match matchLit marker s with
  | Some (_, s1) => plusThenTrace s1
  | None => None
  end.

(** [item.replace(re, '$2')] with the [g] flag: scan from the left; at a
    match, emit group 2 and go on after the match; otherwise copy one
    code unit and go on.  [fuel] bounds the number of steps. *)
Fixpoint replace_fuel (fuel : nat) (s : jsstring) : jsstring :=
  match fuel with
  | O => s
  | S fuel' =>
      match matchAt s with
      | Some (g2, rest) => g2 ++ replace_fuel fuel' rest
      | None =>
          match s with
          | [] => []
          | c :: s' => c :: replace_fuel fuel' s'
          end
      end
  end.

Definition replace (s : jsstring) : jsstring :=
  replace_fuel (S (length s)) s.

(** Does the literal occur (ignoring case) somewhere in [s]? *)
Fixpoint occurs (lit s : jsstring) : bool :=
  match matchLit lit s with
  | Some _ => true
  | None => match s with [] => false | _ :: s' => occurs lit s' end
  end.

(** Does the literal begin at some position inside [pre], in the
    string [pre ++ rest]? *)
Fixpoint beginsWithin (lit pre rest : jsstring) : bool :=
  match pre with
  | [] => false
  | _ :: pre' =>
      match matchLit lit (pre ++ rest) with
      | Some _ => true
      | None => beginsWithin lit pre' rest
      end
  end.

End Re.

(** [dedupeErrors(items)]. *)
Definition dedupeErrors (items : list jsstring) : list jsstring :=
  map (fun item => Re.replace item) items.


(** ** Library functions of the language *)

(** Strict equality of strings. *)
Fixpoint jseq (a b : jsstring) : bool :=
  match a, b with
  | [], [] => true
  | x :: a', y :: b' => (x =? y) && jseq a' b'
  | _, _ => false
  end.

(** [xs.includes(x)] on an array of strings. *)
Definition includes (xs : list jsstring) (x : jsstring) : bool :=
  existsb (jseq x) xs.

(** [xs.sort(cmp)]: a stable sort; [cmp a b <= 0] keeps [a] before [b]. *)
Fixpoint insertBy {A} (cmp : A -> A -> Z) (x : A) (l : list A) : list A :=
  match l with
  | [] => [x]
  | y :: l' => if (cmp x y <=? 0)%Z then x :: l else y :: insertBy cmp x l'
  end.

Definition sortBy {A} (cmp : A -> A -> Z) (l : list A) : list A :=
  fold_right (insertBy cmp) [] l.

(** A number in a template literal: sizes are integers, which print in
    plain decimal. *)
Definition numberToString (z : Z) : jsstring :=
  str (NilZero.string_of_int (Z.to_int z)).

(** ** Data model *)

(** Locations of the objects this code allocates. *)
Abbreviation loc := nat.

(** An error value as the completion handler receives it: [err.stack],
    [err.details] (absent when [None]) and the message of the error. *)
Record JsError := {
  stack : option jsstring;
  details : option jsstring;
  message : jsstring;
}.

(** [asset], [child] and the result of [stats.toJson(...)]. *)
Record Asset := { asset_name : jsstring; asset_size : Z }.
Record Child := { child_name : jsstring; child_assets : list Asset }.
Record Info := {
  errors : list jsstring;
  warnings : list jsstring;
  children : list Child;
}.

(** The engine's stats object: [toJson({context})], [hasErrors()],
    [hasWarnings()]. *)
Record Stats := {
  toJson : jsstring -> Info;
  hasErrors : bool;
  hasWarnings : bool;
}.

(** One completion of the engine: a hard error or a stats snapshot. *)
Inductive Completion :=
| Failed (e : JsError)
| Done (s : Stats).

Definition completion_err (c : Completion) : option JsError :=
  match c with Failed e => Some e | Done _ => None end.

Definition completion_stats (c : Completion) : option Stats :=
  match c with Failed _ => None | Done s => Some s end.

(** Modelled from the spec: [DeferredState] of
    [shared-state-containers.js], which is not part of the sources at
    hand: a single-assignment value that is pending, resolved or
    rejected.  Only its constructor is used here. *)
Inductive DeferredState :=
| Pending
| Resolved (value : jsstring)
| Rejected (error : jsstring).

Inductive Obj :=
| ODeferredState (d : DeferredState)
| OState (clientChunkMetadata i18nManifest : loc)
| OEmpty
| OCell (b : bool).

Inductive Target := web | node.
Inductive Level := error | warn | info.

(** What the logger is called with: a string or an error object. *)
Inductive LogArg :=
| LStr (s : jsstring)
| LErr (e : JsError).

(** The callback of [start]: the caller's, or the substituted [noop]. *)
Inductive Callback :=
| UserCb (id : nat)
| noop.

(** The closure [handler] of [start]: the callback and the location of
    its [hasCalledCb]. *)
Record Handler := { h_cb : Callback; h_hasCalledCb : loc }.

(** What [start] returns: the engine's watcher, or the stub object
    [{close() {}, invalidate() {}}]. *)
Inductive Controller :=
| Watching (h : Handler)
| Stub.

(** A JavaScript exception. *)
Inductive Exn :=
| TypeError (what : jsstring).

(** How a computation ends: with a value or with an exception. *)
Inductive Res (A : Type) :=
| Ret (a : A)
| Throw (e : Exn).
Arguments Ret {A} a.
Arguments Throw {A} e.

(** What the request handler's first middleware does with a request:
    call its continuation, with or without an error, or answer the
    request itself. *)
Inductive DevOutcome :=
| DevCallback (err : option JsError)
| DevResponds.

(** The state of the promise returned by [clean]. *)
Inductive Promise :=
| Fulfilled
| RejectedWith (e : JsError).

(** Types of the values that external collaborators produce. *)
Class Types := {
  Config : Type;
  FusionRC : Type;
  PkgJson : Type;
}.

Section Model.
Context `{Ty : Types}.

(** [legacyPkgConfig]: the required [package.json] or a fresh [{}]. *)
Inductive PkgConfig :=
| PkgModule (m : PkgJson)
| PkgFresh (l : loc).

(** The argument of [getWebpackConfig]. *)
Record Opts := {
  target : Target;
  env : jsstring;
  dir : jsstring;
  watch : bool;
  state : loc;
  fusionConfig : FusionRC;
  legacyPkgConfig : PkgConfig;
}.

(** Observable actions, in the order they happen. *)
Inductive Event :=
| ELog (lvl : Level) (a : LogArg)
| EWriteFile (file content : jsstring)
| EGetWebpackConfig (o : Opts)
| EWebpack (configs : list Config)
| ERun (h : Handler)
| EWatch (h : Handler)
| ECallback (f : Callback) (err : option JsError) (stats : option Stats)
| EHook (type : jsstring) (f : nat) (c : Completion)
| EDev (req res : nat)
| EHot (req res next : nat)
| ENext (next : nat) (err : option JsError)
| ECreateDev
| ECreateHot
| ECloseWatcher (h : Handler)
| EInvalidateWatcher (h : Handler)
| ERimraf (path : jsstring).

(** The world the code runs in. *)
Record World := {
  trace : list Event;
  heap : list Obj;
  hooks : gmap jsstring (list nat);
  registered : option Handler;
  fs : gmap jsstring (option JsError);
}.

(** External collaborators. *)
Class Collaborators := {
  getWebpackConfig : Opts -> Config;
  loadFusionRC : jsstring -> FusionRC;
  existsSync : jsstring -> bool;
  require : jsstring -> PkgJson;
  path_resolve : list jsstring -> jsstring;
  path_join : list jsstring -> jsstring;
  JSON_stringify : Info -> jsstring;
  chalk_bold : jsstring -> jsstring;
  engine_hooks : list jsstring;
  dev : nat -> nat -> DevOutcome;
}.

Context `{Co : Collaborators}.

(** *** Computations: a state and exception monad over the world *)

Definition M (A : Type) : Type := World -> Res A * World.

#[global] Instance M_ret : MRet M := fun A a w => (Ret a, w).
#[global] Instance M_bind : MBind M := fun A B f m w =>
  match m w with
  | (Ret a, w') => f a w'
  | (Throw e, w') => (Throw e, w')
  end.

Definition throw {A} (e : Exn) : M A := fun w => (Throw e, w).

Definition addTrace (es : list Event) (w : World) : World :=
  {| trace := trace w ++ es; heap := heap w; hooks := hooks w;
     registered := registered w; fs := fs w |}.

Definition emit (e : Event) : M unit := fun w => (Ret tt, addTrace [e] w).

(** A computation that only adds events to the trace. *)
Definition emits (m : M unit) (es : list Event) : Prop :=
  forall w, m w = (Ret tt, addTrace es w).

Definition alloc (o : Obj) : M loc := fun w =>
  (Ret (length (heap w)),
   {| trace := trace w; heap := heap w ++ [o]; hooks := hooks w;
      registered := registered w; fs := fs w |}).

Definition readCell (l : loc) : M bool := fun w =>
  match heap w !! l with
  | Some (OCell b) => (Ret b, w)
  | _ => (Ret false, w)
  end.

Definition writeCell (l : loc) (b : bool) : M unit := fun w =>
  (Ret tt, {| trace := trace w; heap := <[l := OCell b]> (heap w);
              hooks := hooks w; registered := registered w; fs := fs w |}).

(** [xs.forEach(f)]. *)
Fixpoint forEach {A} (xs : list A) (f : A -> M unit) : M unit :=
  match xs with
  | [] => mret tt
  | x :: xs' => f x ;; forEach xs' f
  end.

Definition when (b : bool) (m : M unit) : M unit :=
  if b then m else mret tt.

(** The logger. *)
Definition logger_error (a : LogArg) : M unit := emit (ELog error a).
Definition logger_warn (a : LogArg) : M unit := emit (ELog warn a).
Definition logger_info (a : LogArg) : M unit := emit (ELog info a).

(** [fs.writeFile(file, data, () => {})]: the result is ignored. *)
Definition writeFile (file data : jsstring) : M unit := emit (EWriteFile file data).

(** *** [getStatsLogger({dir, logger, envs})] *)

(** [err.stack || err]. *)
Definition stackOrErr (e : JsError) : LogArg :=
  match stack e with
  | Some s => if truthy_str s then LStr s else LErr e
  | None => LErr e
  end.

(** [child.assets.slice().filter(...).sort(...)]. *)
Definition shownAssets (child : Child) : list Asset :=
  sortBy (fun a b => (asset_size b - asset_size a)%Z)
    (List.filter (fun asset => negb (endsWith (asset_name asset) (str ".map")))
       (child_assets child)).

(** The three messages logged for an asset. *)
Definition entrypointLine (child : Child) : LogArg :=
  LStr (str "Entrypoint: " ++ chalk_bold (child_name child)).
Definition assetLine (asset : Asset) : LogArg :=
  LStr (str "Asset: " ++ chalk_bold (asset_name asset)).
Definition sizeLine (asset : Asset) : LogArg :=
  LStr (str "Size: " ++ chalk_bold (numberToString (asset_size asset))
          ++ str " bytes").

Definition statsLogger (dir : jsstring) (envs : list jsstring)
    (err : option JsError) (stats : option Stats) : M unit :=
  let isProd := includes envs (str "production") in
  match err with
  | Some e =>
      logger_error (stackOrErr e) ;;
      match details e with
      | Some d => when (truthy_str d) (logger_error (LStr d))
      | None => mret tt
      end
  | None =>
      match stats with
      | None => throw (TypeError (str "Cannot read property 'toJson' of undefined"))
      | Some stats =>
          let file := path_resolve [dir; str ".fusion/stats.json"] in
          let info := toJson stats (path_resolve [dir]) in
          writeFile file (JSON_stringify info) ;;
          when (hasErrors stats)
            (forEach (dedupeErrors (errors info)) (fun e => logger_error (LStr e))) ;;
          when isProd
            (forEach (children info) (fun child =>
               forEach (shownAssets child) (fun asset =>
                 logger_info (entrypointLine child) ;;
                 logger_info (assetLine asset) ;;
                 logger_info (sizeLine asset)))) ;;
          when (hasWarnings stats)
            (forEach (dedupeErrors (warnings info)) (fun e => logger_warn (LStr e)))
      end
  end.

(** *** [Compiler({dir, envs, watch, logger})] *)

(** The argument of the constructor; an absent field takes its default. *)
Record CompilerArgs := {
  a_dir : option jsstring;
  a_envs : option (list jsstring);
  a_watch : option bool;
}.

(** The variables of the constructor that its methods close over. *)
Record CompilerObj := {
  c_dir : jsstring;
  c_envs : list jsstring;
  c_watch : bool;
}.

Fixpoint mapM {A B} (f : A -> M B) (xs : list A) : M (list B) :=
  match xs with
  | [] => mret []
  | x :: xs' => y ← f x; ys ← mapM f xs'; mret (y :: ys)
  end.

(** A call of the config provider. *)
Definition call_getWebpackConfig (o : Opts) : M Config :=
  emit (EGetWebpackConfig o) ;; mret (getWebpackConfig o).

(** Modelled from the spec: the engine is external; constructing it
    from the configurations creates its table of hooks, one entry per
    lifecycle event it exposes, and no completion handler yet. *)
Definition webpack (configs : list Config) : M unit := fun w =>
  (Ret tt,
   {| trace := trace w ++ [EWebpack configs]; heap := heap w;
      hooks := list_to_map (map (fun n => (n, [])) engine_hooks);
      registered := None; fs := fs w |}).

(** [sharedOpts] together with the target and the environment. *)
Definition mkOpts (root : jsstring) (watch : bool) (state : loc)
    (fusionConfig : FusionRC) (legacyPkgConfig : PkgConfig)
    (target : Target) (env : jsstring) : Opts :=
  {| target := target; env := env; dir := root; watch := watch;
     state := state; fusionConfig := fusionConfig;
     legacyPkgConfig := legacyPkgConfig |}.

Definition Compiler (args : CompilerArgs) : M CompilerObj :=
  let dir := default (str ".") (a_dir args) in
  let envs := default [] (a_envs args) in
  let watch := default false (a_watch args) in
  clientChunkMetadata ← alloc (ODeferredState Pending);
  i18nManifest ← alloc (ODeferredState Pending);
  state ← alloc (OState clientChunkMetadata i18nManifest);
  let root := path_resolve [dir] in
  let fusionConfig := loadFusionRC root in
  let appPkgJsonPath := path_join [root; str "package.json"] in
  legacyPkgConfig ←
    (if existsSync appPkgJsonPath
     then mret (PkgModule (require appPkgJsonPath))
     else l ← alloc OEmpty; mret (PkgFresh l));
  let sharedOpts := mkOpts root watch state fusionConfig legacyPkgConfig in
  profiles ← mapM (fun env =>
                a ← call_getWebpackConfig (sharedOpts web env);
                b ← call_getWebpackConfig (sharedOpts node env);
                mret [a; b]) envs;
  let flattened := concat profiles in
  webpack flattened ;;
  mret {| c_dir := dir; c_envs := envs; c_watch := watch |}.


(** The closure [handler] of [start]. *)
Definition handler (c : CompilerObj) (h : Handler)
    (err : option JsError) (stats : option Stats) : M unit :=
  statsLogger (c_dir c) (c_envs c) err stats ;;
  hasCalledCb ← readCell (h_hasCalledCb h);
  if negb hasCalledCb then
    writeCell (h_hasCalledCb h) true ;;
    emit (ECallback (h_cb h) err stats)
  else mret tt.

Definition register (h : Handler) : M unit := fun w =>
  (Ret tt,
   {| trace := trace w; heap := heap w; hooks := hooks w;
      registered := Some h; fs := fs w |}).

(** [compiler.watch({}, handler)] and [compiler.run(handler)]: the
    engine keeps the handler. *)
Definition compiler_watch (h : Handler) : M Controller :=
  emit (EWatch h) ;; register h ;; mret (Watching h).

Definition compiler_run (h : Handler) : M unit :=
  emit (ERun h) ;; register h.

(** [this.start(cb)]. *)
Definition start (c : CompilerObj) (cb : option nat) : M Controller :=
  let cb := match cb with Some f => UserCb f | None => noop end in
  hasCalledCb ← alloc (OCell false);
  let h := {| h_cb := cb; h_hasCalledCb := hasCalledCb |} in
  if c_watch c then compiler_watch h
  else compiler_run h ;; mret Stub.

(** The methods of what [start] returns. *)
Definition close (ctl : Controller) : M unit :=
  match ctl with
  | Watching h => emit (ECloseWatcher h)
  | Stub => mret tt
  end.

Definition invalidate (ctl : Controller) : M unit :=
  match ctl with
  | Watching h => emit (EInvalidateWatcher h)
  | Stub => mret tt
  end.

(** Modelled from the spec: the simulated engine.  At each completion
    it calls the callbacks tapped on its hook of the given type, in the
    order they were tapped, and then the completion handler it was
    given, with the error or the stats of the completion. *)
Definition tapped (w : World) (type : jsstring) : list nat :=
  default [] (hooks w !! type).

Definition fireHook (type : jsstring) (c : Completion) : M unit := fun w =>
  forEach (tapped w type) (fun f => emit (EHook type f c)) w.

Definition getRegistered : M (option Handler) := fun w => (Ret (registered w), w).

Definition complete (co : CompilerObj) (c : Completion) : M unit :=
  fireHook (str "done") c ;;
  r ← getRegistered;
  match r with
  | Some h => handler co h (completion_err c) (completion_stats c)
  | None => mret tt
  end.

Definition completions (co : CompilerObj) (cs : list Completion) : M unit :=
  forEach cs (complete co).

(** A run: [start(cb)], after which the engine completes as many times
    as [cs] is long. *)
Definition session (co : CompilerObj) (cb : option nat)
    (cs : list Completion) : M Controller :=
  ctl ← start co cb; completions co cs ;; mret ctl.

(** *** [this.getMiddleware()] *)

(** The function that [getMiddleware] returns. *)
Definition middleware (req res next : nat) : M unit :=
  emit (EDev req res) ;;
  match dev req res with
  | DevCallback (Some err) => emit (ENext next (Some err))
  | DevCallback None => emit (EHot req res next)
  | DevResponds => mret tt
  end.

Definition getMiddleware : M (nat -> nat -> nat -> M unit) :=
  emit ECreateDev ;; emit ECreateHot ;; mret middleware.

(** *** [this.clean()] *)

(** Modelled from the spec: [rimraf] is external.  The file system maps
    a path that exists to [None] when it can be removed and to the
    error that its removal meets otherwise; removing a path that does
    not exist is not an error. *)
Definition rimraf (path : jsstring) : M (option JsError) := fun w =>
  let w' := addTrace [ERimraf path] w in
  match fs w !! path with
  | None => (Ret None, w')
  | Some (Some e) => (Ret (Some e), w')
  | Some None =>
      (Ret None,
       {| trace := trace w'; heap := heap w'; hooks := hooks w';
          registered := registered w'; fs := delete path (fs w') |})
  end.

Definition clean (c : CompilerObj) : M Promise :=
  e ← rimraf (c_dir c ++ str "/.fusion");
  mret (match e with Some e => RejectedWith e | None => Fulfilled end).

(** *** Reading a trace *)

(** The events a computation adds to the trace of the world it runs in. *)
Definition eventsOf {A} (m : M A) (w : World) : list Event :=
  drop (length (trace w)) (trace (snd (m w))).

(** What was logged at a level, in order. *)
Definition logged (lvl : Level) (es : list Event) : list LogArg :=
  flat_map (fun e =>
    match e with
    | ELog l a =>
        match lvl, l with
        | error, error | warn, warn | info, info => [a]
        | _, _ => []
        end
    | _ => []
    end) es.

(** The files written, in order. *)
Definition written (es : list Event) : list (jsstring * jsstring) :=
  flat_map (fun e =>
    match e with EWriteFile f c => [(f, c)] | _ => [] end) es.

(** The calls of the callback of [start], in order. *)
Definition callbacks (es : list Event)
    : list (Callback * option JsError * option Stats) :=
  flat_map (fun e =>
    match e with ECallback f err stats => [(f, err, stats)] | _ => [] end) es.


(** The arguments of the calls of the config provider, in order. *)
Definition configRequests (es : list Event) : list Opts :=
  flat_map (fun e =>
    match e with EGetWebpackConfig o => [o] | _ => [] end) es.

(** The lists of configurations the engine was constructed from. *)
Definition engineConfigs (es : list Event) : list (list Config) :=
  flat_map (fun e =>
    match e with EWebpack cs => [cs] | _ => [] end) es.

(** The events of the reporter: what it logs and writes. *)
Definition isReport (e : Event) : bool :=
  match e with ELog _ _ | EWriteFile _ _ => true | _ => false end.

(** The errors given to the callback of [start], in order. *)
Definition forwardedErrors (es : list Event) : list JsError :=
  flat_map (fun e =>
    match e with ECallback _ (Some err) _ => [err] | _ => [] end) es.

Definition emptyWorld : World :=
  {| trace := []; heap := []; hooks := ∅; registered := None; fs := ∅ |}.

(** The events of one run of the reporter on a completion. *)
Definition reportEvents (dir : jsstring) (envs : list jsstring)
    (c : Completion) : list Event :=
  eventsOf (statsLogger dir envs (completion_err c) (completion_stats c))
    emptyWorld.

End Model.

(** The hard errors among the completions of a run, in order. *)
Definition hardErrors (cs : list Completion) : list JsError :=
  flat_map (fun c => match c with Failed e => [e] | Done _ => [] end) cs.

(** ** Concrete collaborators

    A configuration provider that returns the target and environment it
    is asked for, path functions that concatenate, an identity
    [chalk.bold], an engine with the hooks [done] and [invalid], and a
    development middleware that passes request 0 on, fails on request 1
    and answers every other request itself. *)
Module Demo.

Definition types : Types :=
  {| Config := Target * jsstring; FusionRC := jsstring; PkgJson := jsstring |}.

Definition boom : JsError :=
  {| stack := Some (str "Error: boom at build");
     details := Some (str "config is invalid");
     message := str "boom" |}.

Definition collaborators : @Collaborators types :=
  @Build_Collaborators types
    (fun o => (target o, env o))
    (fun root => root)
    (fun _ => false)
    (fun path => path)
    (fun parts => concat parts)
    (fun parts => concat parts)
    (fun _ => str "{}")
    (fun s => s)
    [str "done"; str "invalid"]
    (fun req _ =>
       match req with
       | O => DevCallback None
       | S O => DevCallback (Some boom)
       | _ => DevResponds
       end).

Definition assets : list Asset :=
  [{| asset_name := str "a.js.map"; asset_size := 500 |};
   {| asset_name := str "b.js"; asset_size := 300 |};
   {| asset_name := str "c.js"; asset_size := 900 |}].

Definition snapshot : Info :=
  {| errors := [str "Module not found"; str "Module not found"];
     warnings := [str "asset size limit"];
     children := [{| child_name := str "client"; child_assets := assets |}] |}.

Definition stats : Stats :=
  {| toJson := fun _ => snapshot; hasErrors := true; hasWarnings := true |}.

Definition world : @World types := @emptyWorld types.

Definition watchArgs : CompilerArgs :=
  {| a_dir := None;
     a_envs := Some [str "production"; str "development"];
     a_watch := Some true |}.

Definition watchCompiler : CompilerObj :=
  {| c_dir := str "."; c_envs := [str "production"; str "development"];
     c_watch := true |}.

Definition buildCompiler : CompilerObj :=
  {| c_dir := str "."; c_envs := [str "production"]; c_watch := false |}.

(** The world the constructor leaves, and three completions. *)
Definition watchWorld : @World types :=
  snd (@Compiler types collaborators watchArgs world).


(** A message in which the marker and the trace fragment come twice. *)
Definition twice : jsstring :=
  str "BabelLoaderError: x
    at transpile (a)
BabelLoaderError: x
    at transpile (b)".

(** The same with CR LF line ends. *)
Definition twiceCRLF : jsstring :=
  str "BabelLoaderError: x" ++ [13; 10] ++ str "    at transpile (a)" ++ [13; 10]
  ++ str "BabelLoaderError: x" ++ [13; 10] ++ str "    at transpile (b)".

(** Stats that report neither errors nor warnings over the same snapshot. *)
Definition quietStats : Stats :=
  {| toJson := fun _ => snapshot; hasErrors := false; hasWarnings := false |}.

(** The world after [start] of the one-shot compiler, and its handler. *)
Definition startedWorld : @World types :=
  snd (@start types buildCompiler (Some 1%nat) world).

Definition startedHandler : Handler :=
  {| h_cb := UserCb 1; h_hasCalledCb := 0 |}.

End Demo.

(** * Properties *)

(** ** The matcher *)
Module ReFacts.
Import Re.

Lemma matchLit_split lit s m rest :
  matchLit lit s = Some (m, rest) ->
  s = m ++ rest /\ length m = length lit.
Proof.
  revert s m rest. induction lit as [|p lit IH]; intros s m rest H; simpl in H.
  - inversion H; subst. split; reflexivity.
  - destruct s as [|c s']; [discriminate|].
    destruct (ciEq p c); [|discriminate].
    destruct (matchLit lit s') as [[m' r']|] eqn:E; [|discriminate].
    inversion H; subst. destruct (IH _ _ _ E) as [-> Hl].
    split; simpl; congruence.
Qed.

Lemma matchLit_app lit m x :
  matchLit lit m = Some (m, []) -> matchLit lit (m ++ x) = Some (m, x).
Proof.
  revert m. induction lit as [|p lit IH]; intros m H; simpl in H.
  - inversion H; subst. reflexivity.
  - destruct m as [|c m']; [discriminate|]. simpl.
    destruct (ciEq p c); [|discriminate].
    destruct (matchLit lit m') as [[m1 r1]|] eqn:E; [|discriminate].
    inversion H; subst. rewrite (IH _ E). reflexivity.
Qed.

Lemma plusThenTrace_split s g rest :
  plusThenTrace s = Some (g, rest) ->
  exists mid, s = mid ++ g ++ rest /\ mid <> [] /\
              forallb dotOrNl mid = true /\
              matchLit atTranspile (g ++ rest) = Some (g, rest).
Proof.
  revert g rest. induction s as [|c s' IH]; intros g rest H;
    cbn [plusThenTrace] in H.
  - discriminate.
  - destruct (dotOrNl c) eqn:Ec; [|discriminate].
    destruct (plusThenTrace s') as [r|] eqn:E.
    + inversion H; subst. destruct (IH _ _ eq_refl) as (mid & -> & _ & Hall & Hm).
      exists (c :: mid). cbn [forallb app]. rewrite Ec, Hall.
      split; [reflexivity|]. split; [discriminate|]. split; [reflexivity|exact Hm].
    + destruct (matchLit_split _ _ _ _ H) as [Hs _].
      exists [c]. cbn [forallb app]. rewrite Ec, <- Hs.
      split; [reflexivity|]. split; [discriminate|]. split; [reflexivity|exact H].
Qed.

Lemma matchAt_shorter s g rest :
  matchAt s = Some (g, rest) -> (length rest < length s)%nat.
Proof.
  unfold matchAt. destruct (matchLit marker s) as [[m s1]|] eqn:E; [|discriminate].
  intros H. destruct (matchLit_split _ _ _ _ E) as [-> _].
  destruct (plusThenTrace_split _ _ _ H) as (mid & -> & Hne & _).
  destruct mid; [congruence|]. rewrite !length_app. cbn [length]. lia.
Qed.

Lemma replace_fuel_enough f1 : forall f2 s,
  (length s < f1)%nat -> (length s < f2)%nat ->
  replace_fuel f1 s = replace_fuel f2 s.
Proof.
  induction f1 as [|f1 IH]; intros f2 s H1 H2; [lia|].
  destruct f2 as [|f2]; [lia|]. cbn [replace_fuel].
  destruct (matchAt s) as [[g rest]|] eqn:E.
  - apply matchAt_shorter in E. f_equal. apply IH; lia.
  - destruct s as [|c s']; [reflexivity|]. cbn [length] in *. f_equal. apply IH; lia.
Qed.

(** The equation of the global replacement: the fuel never runs out. *)
Lemma replace_eq s :
  replace s =
  match matchAt s with
  | Some (g2, rest) => g2 ++ replace rest
  | None => match s with [] => [] | c :: s' => c :: replace s' end
  end.
Proof.
  unfold replace at 1. cbn [replace_fuel].
  destruct (matchAt s) as [[g rest]|] eqn:E.
  - f_equal. apply matchAt_shorter in E. apply replace_fuel_enough; lia.
  - destruct s as [|c s']; reflexivity.
Qed.

Lemma occurs_cons lit c s :
  occurs lit (c :: s) =
  match matchLit lit (c :: s) with Some _ => true | None => occurs lit s end.
Proof. reflexivity. Qed.

Lemma occurs_head lit s r : matchLit lit s = Some r -> occurs lit s = true.
Proof. intros H. destruct s; cbn [occurs]; rewrite H; reflexivity. Qed.

Lemma occurs_later lit c s : occurs lit s = true -> occurs lit (c :: s) = true.
Proof.
  intros H. rewrite occurs_cons, H. destruct (matchLit lit (c :: s)); reflexivity.
Qed.

Lemma occurs_app_r lit a b : occurs lit b = true -> occurs lit (a ++ b) = true.
Proof.
  intros H. induction a as [|c a IH]; [exact H|]. apply occurs_later, IH.
Qed.

Lemma occurs_tail lit s : occurs lit s = false -> occurs lit (tail s) = false.
Proof.
  destruct s as [|c s']; [trivial|]. rewrite occurs_cons. cbn [tail].
  destruct (matchLit lit (c :: s')); [discriminate|trivial].
Qed.

Lemma occurs_suffix lit a b : occurs lit (a ++ b) = false -> occurs lit b = false.
Proof.
  intros H. destruct (occurs lit b) eqn:E; [|reflexivity].
  rewrite (occurs_app_r lit a b E) in H. discriminate.
Qed.

Lemma plusThenTrace_occurs s r :
  plusThenTrace s = Some r -> occurs atTranspile (tail s) = true.
Proof.
  revert r. induction s as [|c s' IH]; intros r H;
    cbn [plusThenTrace] in H; [discriminate|].
  destruct (dotOrNl c); [|discriminate]. cbn [tail].
  destruct (plusThenTrace s') as [r'|] eqn:E.
  - specialize (IH _ eq_refl). destruct s' as [|c' s'']; [discriminate|].
    apply occurs_later. exact IH.
  - eapply occurs_head; eassumption.
Qed.

Lemma matchAt_occurs s r : matchAt s = Some r -> occurs atTranspile s = true.
Proof.
  unfold matchAt. destruct (matchLit marker s) as [[m s1]|] eqn:E; [|discriminate].
  intros H. destruct (matchLit_split _ _ _ _ E) as [-> _].
  apply plusThenTrace_occurs in H. apply occurs_app_r.
  destruct s1 as [|c s1']; [discriminate|]. apply occurs_later. exact H.
Qed.

(** A message without the trace fragment is left as it is. *)
Lemma replace_no_trace s : occurs atTranspile s = false -> replace s = s.
Proof.
  induction s as [|c s' IH]; intros H; rewrite replace_eq.
  - destruct (matchAt []) as [r|] eqn:E; [|reflexivity].
    apply matchAt_occurs in E. congruence.
  - destruct (matchAt (c :: s')) as [r|] eqn:E.
    + apply matchAt_occurs in E. congruence.
    + f_equal. apply IH. apply (occurs_tail _ _ H).
Qed.

(** Text before the first marker is copied as it is. *)
Lemma replace_before_marker pre rest :
  beginsWithin marker pre rest = false ->
  replace (pre ++ rest) = pre ++ replace rest.
Proof.
  induction pre as [|c pre IH]; intros H; [reflexivity|].
  cbn [beginsWithin] in H.
  destruct (matchLit marker ((c :: pre) ++ rest)) eqn:E; [discriminate|].
  rewrite replace_eq. unfold matchAt. rewrite E.
  cbn [app]. f_equal. apply IH, H.
Qed.

(** The greedy run goes up to the last trace fragment. *)
Lemma plusThenTrace_last mid t post :
  mid <> [] -> forallb dotOrNl mid = true ->
  matchLit atTranspile t = Some (t, []) ->
  occurs atTranspile (tail (t ++ post)) = false ->
  plusThenTrace (mid ++ t ++ post) = Some (t, post).
Proof.
  intros Hne Hall Ht Hlast.
  assert (Hnone : plusThenTrace (t ++ post) = None).
  { destruct (plusThenTrace (t ++ post)) as [r|] eqn:E; [|reflexivity].
    apply plusThenTrace_occurs in E. congruence. }
  induction mid as [|c mid IH]; [congruence|].
  cbn [forallb] in Hall. apply andb_true_iff in Hall as [Hc Hall].
  cbn [app plusThenTrace]. rewrite Hc.
  destruct mid as [|c' mid'].
  - cbn [app]. rewrite Hnone. apply matchLit_app, Ht.
  - rewrite IH; [reflexivity|discriminate|exact Hall].
Qed.

End ReFacts.

(** ** The sort of the asset report *)

Lemma insertBy_perm {A} (cmp : A -> A -> Z) x l :
  Permutation (insertBy cmp x l) (x :: l).
Proof.
  induction l as [|y l IH]; [reflexivity|]. cbn [insertBy].
  destruct (cmp x y <=? 0)%Z; [reflexivity|].
  rewrite IH. apply perm_swap.
Qed.

Lemma sortBy_perm {A} (cmp : A -> A -> Z) l : Permutation (sortBy cmp l) l.
Proof.
  induction l as [|x l IH]; [reflexivity|]. cbn [sortBy fold_right].
  rewrite insertBy_perm. apply perm_skip, IH.
Qed.

Lemma insertBy_size_sorted x l :
  StronglySorted (fun a b => (asset_size b <= asset_size a)%Z) l ->
  StronglySorted (fun a b => (asset_size b <= asset_size a)%Z)
    (insertBy (fun a b => (asset_size b - asset_size a)%Z) x l).
Proof.
  induction 1 as [|y l Hs IH Hy]; cbn [insertBy].
  - repeat constructor.
  - destruct (Z.leb_spec (asset_size y - asset_size x) 0) as [Hle|Hgt].
    + constructor; [constructor; assumption|].
      constructor; [lia|].
      eapply Forall_impl; [exact Hy|]. cbn. intros z Hz. lia.
    + constructor; [exact IH|].
      eapply Permutation_Forall; [symmetry; apply insertBy_perm|].
      constructor; [lia|exact Hy].
Qed.

(** The assets of the report are the assets whose name does not end in
    [.map], by decreasing size. *)
Lemma shownAssets_sorted {Ty : Types} {Co : @Collaborators Ty} (child : Child) :
  StronglySorted (fun a b => (asset_size b <= asset_size a)%Z) (shownAssets child)
  /\ Permutation (shownAssets child)
       (List.filter (fun asset => negb (endsWith (asset_name asset) (str ".map")))
          (child_assets child)).
Proof.
  unfold shownAssets. split; [|apply sortBy_perm].
  induction (List.filter _ (child_assets child)) as [|x l IH]; [constructor|].
  cbn [sortBy fold_right]. apply insertBy_size_sorted, IH.
Qed.

Section Facts.
Context {Ty : Types} {Co : @Collaborators Ty}.

(** ** The monad *)

Lemma addTrace_nil (w : World) : addTrace [] w = w.
Proof. destruct w. unfold addTrace. cbn. rewrite app_nil_r. reflexivity. Qed.

Lemma addTrace_app es1 es2 (w : World) :
  addTrace es2 (addTrace es1 w) = addTrace (es1 ++ es2) w.
Proof. unfold addTrace. cbn. rewrite app_assoc. reflexivity. Qed.

Lemma bind_Ret {A B} (m : M A) (f : A -> M B) w a w' :
  m w = (Ret a, w') -> (m ≫= f) w = f a w'.
Proof. intros H. unfold mbind, M_bind. rewrite H. reflexivity. Qed.

Lemma bind_Throw {A B} (m : M A) (f : A -> M B) w e w' :
  m w = (Throw e, w') -> (m ≫= f) w = (Throw e, w').
Proof. intros H. unfold mbind, M_bind. rewrite H. reflexivity. Qed.

Lemma emits_emit e : emits (emit e) [e].
Proof. intros w. reflexivity. Qed.

Lemma emits_ret : emits (mret tt) [].
Proof. intros w. rewrite addTrace_nil. reflexivity. Qed.

Lemma emits_seq m1 m2 es1 es2 :
  emits m1 es1 -> emits m2 es2 -> emits (m1 ;; m2) (es1 ++ es2).
Proof.
  intros H1 H2 w. rewrite (bind_Ret _ _ _ _ _ (H1 w)), H2, addTrace_app.
  reflexivity.
Qed.

Lemma emits_when b m es :
  emits m es -> emits (when b m) (if b then es else []).
Proof. intros H. destruct b; [exact H|apply emits_ret]. Qed.

Lemma emits_forEach {A} (xs : list A) f es :
  (forall x, emits (f x) (es x)) -> emits (forEach xs f) (flat_map es xs).
Proof.
  intros H. induction xs as [|x xs IH]; cbn [forEach flat_map].
  - apply emits_ret.
  - apply emits_seq; [apply H|apply IH].
Qed.

Lemma emits_forEach_map {A} (xs : list A) f g :
  (forall x, emits (f x) [g x]) -> emits (forEach xs f) (map g xs).
Proof.
  intros H. induction xs as [|x xs IH]; cbn [forEach map].
  - apply emits_ret.
  - apply (emits_seq _ _ [g x]); [apply H|apply IH].
Qed.

Lemma eventsOf_emits m es w : emits m es -> eventsOf m w = es.
Proof.
  intros H. unfold eventsOf. rewrite H. cbn.
  rewrite drop_app_length. reflexivity.
Qed.

(** ** The reporter *)

Lemma statsLogger_Failed dir envs e stats :
  emits (statsLogger dir envs (Some e) stats)
    (ELog error (stackOrErr e)
     :: match details e with
        | Some d => if truthy_str d then [ELog error (LStr d)] else []
        | None => []
        end).
Proof.
  unfold statsLogger.
  apply (emits_seq _ _ [_]); [apply emits_emit|].
  destruct (details e) as [d|]; [|apply emits_ret].
  apply emits_when, emits_emit.
Qed.

Lemma statsLogger_Done dir envs stats :
  let snapshot := toJson stats (path_resolve [dir]) in
  emits (statsLogger dir envs None (Some stats))
    (EWriteFile (path_resolve [dir; str ".fusion/stats.json"]) (JSON_stringify snapshot)
     :: (if hasErrors stats
         then map (fun e => ELog error (LStr e)) (dedupeErrors (errors snapshot))
         else [])
     ++ (if includes envs (str "production")
         then flat_map (fun child =>
                flat_map (fun asset =>
                  [ELog info (entrypointLine child);
                   ELog info (assetLine asset);
                   ELog info (sizeLine asset)]) (shownAssets child))
                (children snapshot)
         else [])
     ++ (if hasWarnings stats
         then map (fun e => ELog warn (LStr e)) (dedupeErrors (warnings snapshot))
         else [])).
Proof.
  intros snapshot. unfold statsLogger. fold snapshot.
  apply (emits_seq _ _ [_]); [apply emits_emit|].
  apply emits_seq.
  { apply emits_when, emits_forEach_map. intros x. apply emits_emit. }
  apply emits_seq.
  { apply emits_when, emits_forEach. intros child.
    apply emits_forEach. intros asset.
    apply (emits_seq _ _ [_] [_; _]); [apply emits_emit|].
    apply (emits_seq _ _ [_] [_]); apply emits_emit. }
  apply emits_when, emits_forEach_map. intros x. apply emits_emit.
Qed.

Lemma statsLogger_undefined dir envs w :
  statsLogger dir envs None None w
  = (Throw (TypeError (str "Cannot read property 'toJson' of undefined")), w).
Proof. reflexivity. Qed.

(** On a completion of the engine the reporter returns, and what it
    adds to the trace does not depend on the world. *)
Lemma statsLogger_runs dir envs c :
  emits (statsLogger dir envs (completion_err c) (completion_stats c))
    (reportEvents dir envs c).
Proof.
  unfold reportEvents. destruct c as [e|st]; cbn [completion_err completion_stats].
  - rewrite (eventsOf_emits _ _ _ (statsLogger_Failed dir envs e None)).
    apply statsLogger_Failed.
  - rewrite (eventsOf_emits _ _ _ (statsLogger_Done dir envs st)).
    apply statsLogger_Done.
Qed.

Lemma reportEvents_Failed dir envs e :
  reportEvents dir envs (Failed e)
  = ELog error (stackOrErr e)
    :: match details e with
       | Some d => if truthy_str d then [ELog error (LStr d)] else []
       | None => []
       end.
Proof. apply eventsOf_emits, statsLogger_Failed. Qed.

Lemma logged_app lvl es1 es2 :
  logged lvl (es1 ++ es2) = logged lvl es1 ++ logged lvl es2.
Proof. unfold logged. apply flat_map_app. Qed.

Lemma logged_map_same lvl (xs : list LogArg) :
  logged lvl (map (ELog lvl) xs) = xs.
Proof.
  induction xs as [|x xs IH]; [reflexivity|].
  cbn [map]. change (ELog lvl x :: map (ELog lvl) xs)
    with ([ELog lvl x] ++ map (ELog lvl) xs).
  rewrite logged_app, IH. destruct lvl; reflexivity.
Qed.

Lemma logged_map_other lvl lvl' (xs : list LogArg) :
  lvl <> lvl' -> logged lvl (map (ELog lvl') xs) = [].
Proof.
  intros Hne. induction xs as [|x xs IH]; [reflexivity|].
  cbn [map]. change (ELog lvl' x :: map (ELog lvl') xs)
    with ([ELog lvl' x] ++ map (ELog lvl') xs).
  rewrite logged_app, IH. destruct lvl, lvl'; try reflexivity; congruence.
Qed.

Lemma logged_if lvl (b : bool) es :
  logged lvl (if b then es else []) = if b then logged lvl es else [].
Proof. destruct b; reflexivity. Qed.

Lemma logged_asset_lines lvl (child : Child) (assets : list Asset) :
  logged lvl
    (flat_map (fun asset =>
       [ELog info (entrypointLine child); ELog info (assetLine asset);
        ELog info (sizeLine asset)]) assets)
  = match lvl with
    | info => flat_map (fun asset =>
                [entrypointLine child; assetLine asset; sizeLine asset]) assets
    | _ => []
    end.
Proof.
  induction assets as [|a assets IH]; [destruct lvl; reflexivity|].
  cbn [flat_map]. rewrite logged_app, IH. destruct lvl; reflexivity.
Qed.

Lemma logged_children lvl (cs : list Child) :
  logged lvl
    (flat_map (fun child =>
       flat_map (fun asset =>
         [ELog info (entrypointLine child); ELog info (assetLine asset);
          ELog info (sizeLine asset)]) (shownAssets child)) cs)
  = match lvl with
    | info => flat_map (fun child =>
                flat_map (fun asset =>
                  [entrypointLine child; assetLine asset; sizeLine asset])
                  (shownAssets child)) cs
    | _ => []
    end.
Proof.
  induction cs as [|c cs IH]; [destruct lvl; reflexivity|].
  cbn [flat_map]. rewrite logged_app, IH, logged_asset_lines.
  destruct lvl; reflexivity.
Qed.

(** What a run of the reporter on a stats snapshot logs, by level. *)
Lemma logged_Done lvl dir envs stats w :
  let snapshot := toJson stats (path_resolve [dir]) in
  logged lvl (eventsOf (statsLogger dir envs None (Some stats)) w)
  = match lvl with
    | error =>
        if hasErrors stats then map LStr (dedupeErrors (errors snapshot)) else []
    | info =>
        if includes envs (str "production")
        then flat_map (fun child =>
               flat_map (fun asset =>
                 [entrypointLine child; assetLine asset; sizeLine asset])
                 (shownAssets child)) (children snapshot)
        else []
    | warn =>
        if hasWarnings stats then map LStr (dedupeErrors (warnings snapshot)) else []
    end.
Proof.
  intros snapshot.
  rewrite (eventsOf_emits _ _ w (statsLogger_Done dir envs stats)).
  fold snapshot.
  match goal with |- logged _ (?e :: ?l) = _ => change (e :: l) with ([e] ++ l) end.
  rewrite !logged_app, !logged_if, logged_children.
  rewrite <- !(map_map LStr (ELog _)).
  change (logged lvl [EWriteFile _ _]) with (@nil LogArg).
  set (p := includes envs (str "production")).
  destruct lvl.
  - rewrite logged_map_same, (logged_map_other error warn) by discriminate.
    destruct (hasErrors stats), p, (hasWarnings stats);
      cbn [app]; rewrite ?app_nil_r; reflexivity.
  - rewrite logged_map_same, (logged_map_other warn error) by discriminate.
    destruct (hasErrors stats), p, (hasWarnings stats);
      cbn [app]; rewrite ?app_nil_r; reflexivity.
  - rewrite (logged_map_other info error), (logged_map_other info warn)
      by discriminate.
    destruct (hasErrors stats), p, (hasWarnings stats);
      cbn [app]; rewrite ?app_nil_r; reflexivity.
Qed.

(** ** The constructor *)

Lemma profile_pair (o1 o2 : Opts) w :
  (a ← call_getWebpackConfig o1; b ← call_getWebpackConfig o2; mret [a; b]) w
  = (Ret [getWebpackConfig o1; getWebpackConfig o2],
     addTrace [EGetWebpackConfig o1; EGetWebpackConfig o2] w).
Proof.
  change [EGetWebpackConfig o1; EGetWebpackConfig o2]
    with ([EGetWebpackConfig o1] ++ [EGetWebpackConfig o2]).
  rewrite <- addTrace_app. reflexivity.
Qed.

Lemma mapM_profiles (mk : Target -> jsstring -> Opts) envs w :
  mapM (fun env =>
          a ← call_getWebpackConfig (mk web env);
          b ← call_getWebpackConfig (mk node env);
          mret [a; b]) envs w
  = (Ret (map (fun env => [getWebpackConfig (mk web env);
                           getWebpackConfig (mk node env)]) envs),
     addTrace (flat_map (fun env => [EGetWebpackConfig (mk web env);
                                     EGetWebpackConfig (mk node env)]) envs) w).
Proof.
  revert w. induction envs as [|env envs IH]; intros w.
  - cbn [mapM map flat_map]. rewrite addTrace_nil. reflexivity.
  - cbn [mapM map flat_map].
    rewrite (bind_Ret _ _ _ _ _ (profile_pair _ _ w)).
    rewrite (bind_Ret _ _ _ _ _ (IH _)).
    rewrite addTrace_app. reflexivity.
Qed.

(** The constructor returns, and this is the world it leaves. *)
Lemma Compiler_runs args w :
  let dir := default (str ".") (a_dir args) in
  let envs := default [] (a_envs args) in
  let watch := default false (a_watch args) in
  let root := path_resolve [dir] in
  let l := length (heap w) in
  let pkgPath := path_join [root; str "package.json"] in
  let pkg := if existsSync pkgPath then PkgModule (require pkgPath)
             else PkgFresh (l + 3)%nat in
  let mk := mkOpts root watch (l + 2)%nat (loadFusionRC root) pkg in
  Compiler args w
  = (Ret {| c_dir := dir; c_envs := envs; c_watch := watch |},
     {| trace := trace w
          ++ flat_map (fun env => [EGetWebpackConfig (mk web env);
                                   EGetWebpackConfig (mk node env)]) envs
          ++ [EWebpack (concat (map (fun env => [getWebpackConfig (mk web env);
                                                 getWebpackConfig (mk node env)])
                                    envs))];
        heap := heap w
          ++ [ODeferredState Pending; ODeferredState Pending; OState l (l + 1)%nat]
          ++ (if existsSync pkgPath then [] else [OEmpty]);
        hooks := list_to_map (map (fun n => (n, [])) engine_hooks);
        registered := None;
        fs := fs w |}).
Proof.
  intros dir envs watch root l pkgPath pkg mk. unfold Compiler.
  fold dir envs watch root pkgPath.
  do 3 (erewrite bind_Ret by reflexivity).
  assert (Hl2 : length (heap (snd (alloc (ODeferredState Pending)
                  (snd (alloc (ODeferredState Pending) w))))) = (l + 2)%nat).
  { cbn. rewrite !length_app. cbn. fold l. lia. }
  assert (Hl1 : length (heap (snd (alloc (ODeferredState Pending) w))) = (l + 1)%nat).
  { cbn. rewrite !length_app. cbn. fold l. lia. }
  cbn [alloc snd fst heap trace hooks registered fs] in *.
  rewrite Hl1, Hl2. fold l.
  subst mk pkg. destruct (existsSync pkgPath).
  - erewrite bind_Ret by reflexivity.
    erewrite bind_Ret by apply mapM_profiles.
    erewrite bind_Ret by reflexivity.
    unfold mret, M_ret, addTrace. cbn [trace heap hooks registered fs].
    rewrite <- !app_assoc. reflexivity.
  - erewrite bind_Ret.
    2:{ erewrite bind_Ret by reflexivity. reflexivity. }
    cbn [trace heap hooks registered fs].
    assert (Hl3 : length ((((heap w ++ [ODeferredState Pending])
               ++ [ODeferredState Pending]) ++ [OState l (l + 1)%nat])) = (l + 3)%nat).
    { rewrite !length_app. cbn. fold l. lia. }
    rewrite Hl3.
    erewrite bind_Ret by apply mapM_profiles.
    erewrite bind_Ret by reflexivity.
    unfold mret, M_ret, addTrace. cbn [trace heap hooks registered fs].
    rewrite <- !app_assoc. reflexivity.
Qed.

(** ** [start] and the completions of the engine *)

Lemma start_runs co cb w :
  let h := {| h_cb := match cb with Some f => UserCb f | None => noop end;
              h_hasCalledCb := length (heap w) |} in
  start co cb w
  = (Ret (if c_watch co then Watching h else Stub),
     {| trace := trace w ++ [if c_watch co then EWatch h else ERun h];
        heap := heap w ++ [OCell false];
        hooks := hooks w;
        registered := Some h;
        fs := fs w |}).
Proof.
  intros h. unfold start. erewrite bind_Ret by reflexivity.
  cbn [alloc snd heap]. fold h. destruct (c_watch co); reflexivity.
Qed.

Lemma fireHook_runs type c w :
  fireHook type c w
  = (Ret tt, addTrace (map (fun f => EHook type f c) (tapped w type)) w).
Proof.
  unfold fireHook. apply emits_forEach_map. intros f. apply emits_emit.
Qed.

(** The first call of the handler: report, then the callback. *)
Lemma handler_armed co h c w :
  heap w !! h_hasCalledCb h = Some (OCell false) ->
  handler co h (completion_err c) (completion_stats c) w
  = (Ret tt,
     {| trace := trace w ++ reportEvents (c_dir co) (c_envs co) c
                   ++ [ECallback (h_cb h) (completion_err c) (completion_stats c)];
        heap := <[h_hasCalledCb h := OCell true]> (heap w);
        hooks := hooks w;
        registered := registered w;
        fs := fs w |}).
Proof.
  intros Hcell. unfold handler.
  erewrite bind_Ret by apply statsLogger_runs.
  erewrite bind_Ret.
  2:{ unfold readCell. cbn [addTrace heap]. rewrite Hcell. reflexivity. }
  cbn [negb]. erewrite bind_Ret by reflexivity.
  unfold emit, addTrace. cbn [trace heap hooks registered fs].
  rewrite <- app_assoc. reflexivity.
Qed.

(** Every later call of the handler: report only. *)
Lemma handler_fired co h c w :
  heap w !! h_hasCalledCb h = Some (OCell true) ->
  handler co h (completion_err c) (completion_stats c) w
  = (Ret tt, addTrace (reportEvents (c_dir co) (c_envs co) c) w).
Proof.
  intros Hcell. unfold handler.
  erewrite bind_Ret by apply statsLogger_runs.
  erewrite bind_Ret.
  2:{ unfold readCell. cbn [addTrace heap]. rewrite Hcell. reflexivity. }
  reflexivity.
Qed.

Lemma complete_armed co h c w :
  registered w = Some h ->
  heap w !! h_hasCalledCb h = Some (OCell false) ->
  complete co c w
  = (Ret tt,
     {| trace := trace w
                   ++ map (fun f => EHook (str "done") f c) (tapped w (str "done"))
                   ++ reportEvents (c_dir co) (c_envs co) c
                   ++ [ECallback (h_cb h) (completion_err c) (completion_stats c)];
        heap := <[h_hasCalledCb h := OCell true]> (heap w);
        hooks := hooks w;
        registered := registered w;
        fs := fs w |}).
Proof.
  intros Hreg Hcell. unfold complete.
  erewrite bind_Ret by apply fireHook_runs.
  erewrite bind_Ret.
  2:{ unfold getRegistered. cbn [addTrace registered]. rewrite Hreg. reflexivity. }
  cbv beta iota. rewrite (handler_armed co h c) by exact Hcell.
  cbn [addTrace trace heap hooks registered fs].
  rewrite <- app_assoc. reflexivity.
Qed.

Lemma complete_fired co h c w :
  registered w = Some h ->
  heap w !! h_hasCalledCb h = Some (OCell true) ->
  complete co c w
  = (Ret tt,
     addTrace (map (fun f => EHook (str "done") f c) (tapped w (str "done"))
                 ++ reportEvents (c_dir co) (c_envs co) c) w).
Proof.
  intros Hreg Hcell. unfold complete.
  erewrite bind_Ret by apply fireHook_runs.
  erewrite bind_Ret.
  2:{ unfold getRegistered. cbn [addTrace registered]. rewrite Hreg. reflexivity. }
  cbv beta iota. rewrite (handler_fired co h c) by exact Hcell.
  rewrite addTrace_app. reflexivity.
Qed.

Lemma completions_fired co h cs w :
  registered w = Some h ->
  heap w !! h_hasCalledCb h = Some (OCell true) ->
  completions co cs w
  = (Ret tt,
     addTrace (flat_map (fun c =>
                 map (fun f => EHook (str "done") f c) (tapped w (str "done"))
                 ++ reportEvents (c_dir co) (c_envs co) c) cs) w).
Proof.
  unfold completions. revert w.
  induction cs as [|c cs IH]; intros w Hreg Hcell; cbn [forEach flat_map].
  - rewrite addTrace_nil. reflexivity.
  - erewrite bind_Ret by (eapply complete_fired; eassumption).
    rewrite IH by assumption. rewrite addTrace_app. reflexivity.
Qed.

Lemma completions_armed co h c cs w :
  registered w = Some h ->
  heap w !! h_hasCalledCb h = Some (OCell false) ->
  completions co (c :: cs) w
  = (Ret tt,
     {| trace := trace w
          ++ (map (fun f => EHook (str "done") f c) (tapped w (str "done"))
              ++ reportEvents (c_dir co) (c_envs co) c
              ++ [ECallback (h_cb h) (completion_err c) (completion_stats c)])
          ++ flat_map (fun c' =>
               map (fun f => EHook (str "done") f c') (tapped w (str "done"))
               ++ reportEvents (c_dir co) (c_envs co) c') cs;
        heap := <[h_hasCalledCb h := OCell true]> (heap w);
        hooks := hooks w;
        registered := registered w;
        fs := fs w |}).
Proof.
  intros Hreg Hcell. unfold completions. cbn [forEach].
  erewrite bind_Ret by (eapply complete_armed; eassumption).
  fold (completions co cs).
  erewrite completions_fired.
  - unfold addTrace, tapped. cbn [trace heap hooks registered fs].
    rewrite <- !app_assoc. reflexivity.
  - exact Hreg.
  - cbn [heap]. apply list_lookup_insert_eq.
    eapply lookup_lt_Some, Hcell.
Qed.

Lemma reportEvents_isReport dir envs c :
  List.filter isReport (reportEvents dir envs c) = reportEvents dir envs c.
Proof.
  apply forallb_filter_id.
  unfold reportEvents. destruct c as [e|st]; cbn [completion_err completion_stats].
  - rewrite (eventsOf_emits _ _ _ (statsLogger_Failed dir envs e None)).
    cbn [forallb isReport]. destruct (details e) as [d|]; [|reflexivity].
    destruct (truthy_str d); reflexivity.
  - rewrite (eventsOf_emits _ _ _ (statsLogger_Done dir envs st)).
    cbn [forallb isReport andb]. rewrite !forallb_app.
    apply andb_true_intro; split; [|apply andb_true_intro; split].
    + destruct (hasErrors st); [|reflexivity].
      apply forallb_forall. intros x Hx. apply in_map_iff in Hx as (? & <- & _).
      reflexivity.
    + destruct (includes envs (str "production")); [|reflexivity].
      apply forallb_forall. intros x Hx.
      apply in_flat_map in Hx as (child & _ & Hx).
      apply in_flat_map in Hx as (asset & _ & Hx).
      cbn [In] in Hx. destruct Hx as [<-|[<-|[<-|[]]]]; reflexivity.
    + destruct (hasWarnings st); [|reflexivity].
      apply forallb_forall. intros x Hx. apply in_map_iff in Hx as (? & <- & _).
      reflexivity.
Qed.

Lemma callbacks_app es1 es2 :
  callbacks (es1 ++ es2) = callbacks es1 ++ callbacks es2.
Proof. unfold callbacks. apply flat_map_app. Qed.


(** An event of the reporter is neither a call of the callback nor of a hook. *)
Lemma callbacks_report es :
  List.filter isReport es = es -> callbacks es = [].
Proof.
  induction es as [|e es IH]; [reflexivity|]. cbn [List.filter].
  destruct (isReport e) eqn:E.
  - intros H. injection H as H. change (e :: es) with ([e] ++ es).
    rewrite callbacks_app, (IH H). destruct e; try discriminate; reflexivity.
  - intros H. exfalso.
    assert (Hin : In e (List.filter isReport es)) by (rewrite H; left; reflexivity).
    apply filter_In in Hin as [_ Hin]. congruence.
Qed.


Lemma eventsOf_trace {A} (m : M A) w es :
  trace (snd (m w)) = trace w ++ es -> eventsOf m w = es.
Proof. intros H. unfold eventsOf. rewrite H. apply drop_app_length. Qed.



(** A whole run with at least one completion. *)
Lemma session_runs co cb c cs w :
  let h := {| h_cb := match cb with Some f => UserCb f | None => noop end;
              h_hasCalledCb := length (heap w) |} in
  session co cb (c :: cs) w
  = (Ret (if c_watch co then Watching h else Stub),
     {| trace := trace w
          ++ [if c_watch co then EWatch h else ERun h]
          ++ (map (fun f => EHook (str "done") f c) (tapped w (str "done"))
              ++ reportEvents (c_dir co) (c_envs co) c
              ++ [ECallback (h_cb h) (completion_err c) (completion_stats c)])
          ++ flat_map (fun c' =>
               map (fun f => EHook (str "done") f c') (tapped w (str "done"))
               ++ reportEvents (c_dir co) (c_envs co) c') cs;
        heap := <[length (heap w) := OCell true]> (heap w ++ [OCell false]);
        hooks := hooks w;
        registered := Some h;
        fs := fs w |}).
Proof.
  intros h. unfold session.
  erewrite bind_Ret by apply start_runs. fold h.
  erewrite bind_Ret.
  2:{ apply (completions_armed co h); cbn [registered heap h_hasCalledCb h].
      - reflexivity.
      - apply list_lookup_middle. reflexivity. }
  unfold mret, M_ret, tapped. cbn [trace heap hooks registered fs h_hasCalledCb h].
  rewrite <- !app_assoc. reflexivity.
Qed.




Lemma callbacks_hooks type c (taps : list nat) :
  callbacks (map (fun f => EHook type f c) taps) = [].
Proof. induction taps as [|f taps IH]; [reflexivity|exact IH]. Qed.

Lemma callbacks_rebuilds type (taps : list nat) dir envs cs :
  callbacks (flat_map (fun c =>
               map (fun f => EHook type f c) taps ++ reportEvents dir envs c) cs)
  = [].
Proof.
  induction cs as [|c cs IH]; [reflexivity|].
  cbn [flat_map]. rewrite !callbacks_app, IH, callbacks_hooks.
  rewrite (callbacks_report _ (reportEvents_isReport dir envs c)). reflexivity.
Qed.

(** In every run the callback is called once, with the first completion. *)
Lemma session_callbacks co cb c cs w :
  callbacks (eventsOf (session co cb (c :: cs)) w)
  = [(match cb with Some f => UserCb f | None => noop end,
      completion_err c, completion_stats c)].
Proof.
  rewrite (eventsOf_trace _ w _ (f_equal (fun r => trace (snd r))
                                   (session_runs co cb c cs w))).
  rewrite !callbacks_app, callbacks_rebuilds, callbacks_hooks.
  rewrite (callbacks_report _ (reportEvents_isReport _ _ c)).
  destruct (c_watch co); reflexivity.
Qed.

(** The events of the constructor. *)
Lemma Compiler_events args w :
  let dir := default (str ".") (a_dir args) in
  let envs := default [] (a_envs args) in
  let root := path_resolve [dir] in
  let l := length (heap w) in
  let pkgPath := path_join [root; str "package.json"] in
  let pkg := if existsSync pkgPath then PkgModule (require pkgPath)
             else PkgFresh (l + 3)%nat in
  let mk := mkOpts root (default false (a_watch args)) (l + 2)%nat
              (loadFusionRC root) pkg in
  eventsOf (Compiler args) w
  = flat_map (fun env => [EGetWebpackConfig (mk web env);
                          EGetWebpackConfig (mk node env)]) envs
    ++ [EWebpack (concat (map (fun env => [getWebpackConfig (mk web env);
                                           getWebpackConfig (mk node env)]) envs))].
Proof.
  intros. apply eventsOf_trace. rewrite Compiler_runs. reflexivity.
Qed.

Lemma configRequests_app es1 es2 :
  configRequests (es1 ++ es2) = configRequests es1 ++ configRequests es2.
Proof. unfold configRequests. apply flat_map_app. Qed.

Lemma engineConfigs_app es1 es2 :
  engineConfigs (es1 ++ es2) = engineConfigs es1 ++ engineConfigs es2.
Proof. unfold engineConfigs. apply flat_map_app. Qed.

Lemma configRequests_pairs (mk : Target -> jsstring -> Opts) envs :
  configRequests (flat_map (fun env => [EGetWebpackConfig (mk web env);
                                        EGetWebpackConfig (mk node env)]) envs)
  = flat_map (fun env => [mk web env; mk node env]) envs.
Proof.
  induction envs as [|e envs IH]; [reflexivity|].
  cbn [flat_map]. rewrite configRequests_app, IH. reflexivity.
Qed.

Lemma engineConfigs_pairs (mk : Target -> jsstring -> Opts) envs :
  engineConfigs (flat_map (fun env => [EGetWebpackConfig (mk web env);
                                       EGetWebpackConfig (mk node env)]) envs)
  = [].
Proof.
  induction envs as [|e envs IH]; [reflexivity|].
  cbn [flat_map]. rewrite engineConfigs_app, IH. reflexivity.
Qed.

Lemma concat_pairs {A B} (f g : A -> B) xs :
  concat (map (fun x => [f x; g x]) xs) = flat_map (fun x => [f x; g x]) xs.
Proof.
  induction xs as [|x xs IH]; [reflexivity|]. cbn [map concat flat_map].
  rewrite IH. reflexivity.
Qed.

Lemma length_pairs {A B} (f g : A -> B) xs :
  length (flat_map (fun x => [f x; g x]) xs) = (2 * length xs)%nat.
Proof.
  induction xs as [|x xs IH]; [reflexivity|]. cbn [flat_map app length].
  rewrite IH. lia.
Qed.

Lemma map_pairs {A B C} (h : B -> C) (f g : A -> B) xs :
  map h (flat_map (fun x => [f x; g x]) xs)
  = flat_map (fun x => [h (f x); h (g x)]) xs.
Proof.
  induction xs as [|x xs IH]; [reflexivity|]. cbn [flat_map app map].
  rewrite IH. reflexivity.
Qed.

(** The requests of the constructor and the list the engine gets. *)
Lemma Compiler_requests args w :
  let dir := default (str ".") (a_dir args) in
  let envs := default [] (a_envs args) in
  let root := path_resolve [dir] in
  let l := length (heap w) in
  let pkgPath := path_join [root; str "package.json"] in
  let pkg := if existsSync pkgPath then PkgModule (require pkgPath)
             else PkgFresh (l + 3)%nat in
  let mk := mkOpts root (default false (a_watch args)) (l + 2)%nat
              (loadFusionRC root) pkg in
  let es := eventsOf (Compiler args) w in
  configRequests es = flat_map (fun env => [mk web env; mk node env]) envs /\
  engineConfigs es = [map getWebpackConfig (configRequests es)].
Proof.
  intros dir envs root l pkgPath pkg mk es. unfold es.
  rewrite Compiler_events. fold dir envs root l pkgPath pkg mk.
  rewrite configRequests_app, engineConfigs_app, configRequests_pairs,
    engineConfigs_pairs.
  cbn [configRequests engineConfigs flat_map app]. rewrite app_nil_r.
  split; [reflexivity|]. rewrite concat_pairs, map_pairs. reflexivity.
Qed.

Lemma written_app es1 es2 : written (es1 ++ es2) = written es1 ++ written es2.
Proof. unfold written. apply flat_map_app. Qed.

Lemma forwardedErrors_callbacks es :
  forwardedErrors es
  = flat_map (fun r : Callback * option JsError * option Stats =>
                match r with (_, Some e, _) => [e] | _ => [] end)
      (callbacks es).
Proof.
  induction es as [|e es IH]; [reflexivity|].
  change (e :: es) with ([e] ++ es).
  unfold forwardedErrors in *. rewrite flat_map_app, IH, callbacks_app, flat_map_app.
  f_equal. destruct e; reflexivity.
Qed.

(** What a run of the reporter on a hard error logs, by level. *)
Lemma logged_Failed lvl dir envs e stats w :
  logged lvl (eventsOf (statsLogger dir envs (Some e) stats) w)
  = match lvl with
    | error =>
        stackOrErr e
        :: match details e with
           | Some d => if truthy_str d then [LStr d] else []
           | None => []
           end
    | _ => []
    end.
Proof.
  rewrite (eventsOf_emits _ _ w (statsLogger_Failed dir envs e stats)).
  destruct (details e) as [d|].
  - destruct (truthy_str d); destruct lvl; reflexivity.
  - destruct lvl; reflexivity.
Qed.

End Facts.

(** * The claims *)

Section Claims.
Context {Ty : Types} {Co : @Collaborators Ty}.


(** C2: without watch mode, [start(cb)] asks the engine for one run and
    returns the stub controller, whose [close] and [invalidate] do
    nothing; when the compilation completes the reporter runs and then
    [cb] is called with the error and stats of that completion; [cb] is
    called once however often the engine calls the handler; and with
    [cb] omitted the callback is [noop] and [start] still returns. *)
Theorem one_shot_start co cb c cs w :
  c_watch co = false ->
  let cb' := match cb with Some g => UserCb g | None => noop end in
  let h := {| h_cb := cb'; h_hasCalledCb := length (heap w) |} in
  fst (start co cb w) = Ret Stub /\
  eventsOf (start co cb) w = [ERun h] /\
  (forall w', close Stub w' = (Ret tt, w') /\ invalidate Stub w' = (Ret tt, w')) /\
  fst (session co cb [c] w) = Ret Stub /\
  eventsOf (session co cb [c]) w
  = [ERun h]
    ++ map (fun f => EHook (str "done") f c) (tapped w (str "done"))
    ++ reportEvents (c_dir co) (c_envs co) c
    ++ [ECallback cb' (completion_err c) (completion_stats c)] /\
  callbacks (eventsOf (session co cb (c :: cs)) w)
  = [(cb', completion_err c, completion_stats c)] /\
  fst (start co None w) = Ret Stub /\
  callbacks (eventsOf (session co None (c :: cs)) w)
  = [(noop, completion_err c, completion_stats c)].
Proof.
  intros Hwatch cb' h.
  assert (Hstart : forall cb0, fst (start co cb0 w) = Ret Stub).
  { intros cb0. rewrite start_runs, Hwatch. reflexivity. }
  split; [apply Hstart|].
  split.
  { apply eventsOf_trace. rewrite start_runs, Hwatch. reflexivity. }
  split; [intros w'; split; reflexivity|].
  split; [rewrite session_runs, Hwatch; reflexivity|].
  split.
  { apply eventsOf_trace. rewrite session_runs, Hwatch.
    cbn [snd trace flat_map h_cb]. rewrite app_nil_r. reflexivity. }
  split; [apply session_callbacks|].
  split; [apply Hstart|apply session_callbacks].
Qed.

(** C3: for a list of N environments the constructor calls the config
    provider 2N times, for the browser target and then the server
    target of each environment in the order of the list, and constructs
    the engine from the 2N results in that same order. *)
Theorem profiles_flattened args w :
  let envs := default [] (a_envs args) in
  let es := eventsOf (Compiler args) w in
  map (fun o => (env o, target o)) (configRequests es)
  = flat_map (fun e => [(e, web); (e, node)]) envs /\
  length (configRequests es) = (2 * length envs)%nat /\
  engineConfigs es = [map getWebpackConfig (configRequests es)] /\
  length (map getWebpackConfig (configRequests es)) = (2 * length envs)%nat.
Proof.
  intros envs es. destruct (Compiler_requests args w) as [Hreq Heng].
  fold es in Hreq, Heng. fold envs in Hreq.
  split; [|split; [|split]].
  - rewrite Hreq, map_pairs. reflexivity.
  - rewrite Hreq. apply length_pairs.
  - exact Heng.
  - rewrite length_map, Hreq. apply length_pairs.
Qed.

(** C9: for every environment of the list, in order, the config
    provider is called once for the browser target and once for the
    server target, and these are all its calls; both calls of every
    environment carry the same state bag, which this constructor
    allocates and which holds its two pending deferred values, and the
    same project configuration and package metadata. *)
Theorem shared_state_bag args w :
  let envs := default [] (a_envs args) in
  let root := path_resolve [default (str ".") (a_dir args)] in
  let pkgPath := path_join [root; str "package.json"] in
  let l := length (heap w) in
  let pkg := if existsSync pkgPath then PkgModule (require pkgPath)
             else PkgFresh (l + 3)%nat in
  let request := mkOpts root (default false (a_watch args)) (l + 2)%nat
                   (loadFusionRC root) pkg in
  let es := eventsOf (Compiler args) w in
  let w' := snd (Compiler args w) in
  configRequests es
  = flat_map (fun e => [request web e; request node e]) envs /\
  (forall e, In e envs ->
     In (request web e) (configRequests es) /\
     In (request node e) (configRequests es) /\
     state (request web e) = state (request node e) /\
     fusionConfig (request web e) = fusionConfig (request node e) /\
     legacyPkgConfig (request web e) = legacyPkgConfig (request node e)) /\
  Forall (fun o => state o = (l + 2)%nat /\
                   fusionConfig o = loadFusionRC root /\
                   legacyPkgConfig o = pkg) (configRequests es) /\
  heap w !! (l + 2)%nat = None /\
  heap w' !! (l + 2)%nat = Some (OState l (l + 1)%nat) /\
  heap w' !! l = Some (ODeferredState Pending) /\
  heap w' !! (l + 1)%nat = Some (ODeferredState Pending).
Proof.
  intros envs root pkgPath l pkg request es w'.
  destruct (Compiler_requests args w) as [Hreq _]. fold es in Hreq.
  fold envs root pkgPath l pkg request in Hreq.
  split; [exact Hreq|]. split.
  { intros e He. rewrite Hreq.
    split; [|split; [|repeat split]];
      apply in_flat_map; exists e; (split; [exact He|cbn [In]; auto]). }
  split.
  { rewrite Hreq. apply Forall_forall. intros o Ho.
    apply list_elem_of_In in Ho. apply in_flat_map in Ho as (e & _ & Ho). cbn [In] in Ho.
    destruct Ho as [<-|[<-|[]]]; repeat split. }
  split; [apply lookup_ge_None; lia|].
  unfold w'. rewrite Compiler_runs. cbn [snd heap]. fold l.
  repeat split.
  - rewrite lookup_app_r by lia. replace (l + 2 - length (heap w))%nat with 2%nat
      by (unfold l; lia). reflexivity.
  - rewrite lookup_app_r by (unfold l; lia).
    replace (l - length (heap w))%nat with 0%nat by (unfold l; lia). reflexivity.
  - rewrite lookup_app_r by (unfold l; lia).
    replace (l + 1 - length (heap w))%nat with 1%nat by (unfold l; lia).
    reflexivity.
Qed.

(** C4: with the environments [["production"]] and a snapshot with one
    child whose assets are a.js.map (500), b.js (300) and c.js (900),
    the reporter logs, at level info, the lines of c.js and then those
    of b.js and nothing for a.js.map; and when no environment is
    ["production"] the reporter logs nothing at level info. *)
Theorem production_asset_report :
  (forall dir stats name w,
     children (toJson stats (path_resolve [dir]))
     = [{| child_name := name;
           child_assets :=
             [{| asset_name := str "a.js.map"; asset_size := 500 |};
              {| asset_name := str "b.js"; asset_size := 300 |};
              {| asset_name := str "c.js"; asset_size := 900 |}] |}] ->
     logged info (eventsOf (statsLogger dir [str "production"] None (Some stats)) w)
     = [LStr (str "Entrypoint: " ++ chalk_bold name);
        LStr (str "Asset: " ++ chalk_bold (str "c.js"));
        LStr (str "Size: " ++ chalk_bold (str "900") ++ str " bytes");
        LStr (str "Entrypoint: " ++ chalk_bold name);
        LStr (str "Asset: " ++ chalk_bold (str "b.js"));
        LStr (str "Size: " ++ chalk_bold (str "300") ++ str " bytes")]) /\
  (forall dir envs err stats w,
     includes envs (str "production") = false ->
     logged info (eventsOf (statsLogger dir envs err stats) w) = []).
Proof.
  split.
  - intros dir stats name w Hchildren.
    rewrite logged_Done, Hchildren.
    replace (includes [str "production"] (str "production")) with true
      by (vm_compute; reflexivity).
    cbn [flat_map app].
    replace (shownAssets _)
      with [{| asset_name := str "c.js"; asset_size := 900 |};
            {| asset_name := str "b.js"; asset_size := 300 |}]
      by (vm_compute; reflexivity).
    unfold entrypointLine, assetLine, sizeLine.
    cbn [flat_map app child_name asset_name asset_size].
    replace (numberToString 900) with (str "900") by (vm_compute; reflexivity).
    replace (numberToString 300) with (str "300") by (vm_compute; reflexivity).
    reflexivity.
  - intros dir envs err stats w Hprod.
    destruct err as [e|]; [apply logged_Failed|].
    destruct stats as [st|].
    + rewrite logged_Done, Hprod. reflexivity.
    + unfold eventsOf. rewrite statsLogger_undefined. cbn [snd].
      rewrite drop_all. reflexivity.
Qed.

(** C7, amended: on a hard error the reporter logs the stack of the
    error, or the error itself when it has none, then its details when
    it has some, and returns: nothing is written and nothing is logged
    at the levels warn and info.  The error reaches the callback of
    [start] exactly when it comes with the first completion of the run. *)
Theorem hard_error_reported :
  (forall dir envs e stats w,
     let es := eventsOf (statsLogger dir envs (Some e) stats) w in
     fst (statsLogger dir envs (Some e) stats w) = Ret tt /\
     es = ELog error (stackOrErr e)
          :: match details e with
             | Some d => if truthy_str d then [ELog error (LStr d)] else []
             | None => []
             end /\
     written es = [] /\ logged warn es = [] /\ logged info es = []) /\
  (forall co cb c cs w,
     forwardedErrors (eventsOf (session co cb (c :: cs)) w) = hardErrors [c]).
Proof.
  split.
  - intros dir envs e stats w es.
    split; [rewrite statsLogger_Failed; reflexivity|].
    split; [apply eventsOf_emits, statsLogger_Failed|].
    split; [|split; apply logged_Failed].
    unfold es. rewrite (eventsOf_emits _ _ w (statsLogger_Failed dir envs e stats)).
    destruct (details e) as [d|]; [|reflexivity].
    destruct (truthy_str d); reflexivity.
  - intros co cb c cs w.
    rewrite forwardedErrors_callbacks, session_callbacks.
    destruct c; reflexivity.
Qed.

(** C10: [dedupeErrors] rewrites each message on its own and keeps the
    number and the order of the messages; so every entry of the error
    list, and of the warning list, of a snapshot is logged, also when
    two entries are the same message. *)
Theorem dedupe_keeps_entries :
  (forall items, length (dedupeErrors items) = length items) /\
  (forall items i, dedupeErrors items !! i = Re.replace <$> items !! i) /\
  (forall m, dedupeErrors [m; m] = [Re.replace m; Re.replace m]) /\
  (forall dir envs stats w,
     hasErrors stats = true ->
     logged error (eventsOf (statsLogger dir envs None (Some stats)) w)
     = map (fun m => LStr (Re.replace m))
         (errors (toJson stats (path_resolve [dir])))) /\
  (forall dir envs stats w,
     hasWarnings stats = true ->
     logged warn (eventsOf (statsLogger dir envs None (Some stats)) w)
     = map (fun m => LStr (Re.replace m))
         (warnings (toJson stats (path_resolve [dir])))).
Proof.
  split; [intros items; apply length_map|].
  split; [intros items i; apply list_lookup_fmap|].
  split; [reflexivity|].
  split; intros dir envs stats w H; rewrite logged_Done, H;
    unfold dedupeErrors; apply map_map.
Qed.

(** C6: [getMiddleware] returns the handler [middleware]; the handler
    first calls the development middleware; when that one calls back
    with an error the error goes to [next] and the hot middleware is
    not called; when it calls back without an error the hot middleware
    is called with the same request, response and [next]. *)
Theorem middleware_chain req res next w :
  fst (getMiddleware w) = Ret middleware /\
  (exists rest, eventsOf (middleware req res next) w = EDev req res :: rest) /\
  (forall e, dev req res = DevCallback (Some e) ->
     eventsOf (middleware req res next) w = [EDev req res; ENext next (Some e)]) /\
  (dev req res = DevCallback None ->
     eventsOf (middleware req res next) w = [EDev req res; EHot req res next]).
Proof.
  assert (Hdev : forall m es, emits m es ->
            eventsOf (emit (EDev req res) ;; m) w = EDev req res :: es).
  { intros m es Hm. apply eventsOf_emits.
    apply (emits_seq _ _ [_]); [apply emits_emit|exact Hm]. }
  split; [reflexivity|]. unfold middleware. split; [|split].
  - destruct (dev req res) as [[e|]|]; eexists; apply Hdev;
      first [apply emits_emit|apply emits_ret].
  - intros e ->. apply Hdev, emits_emit.
  - intros ->. apply Hdev, emits_emit.
Qed.


End Claims.

Section Dedupe.
Import Re ReFacts.

(** C5, amended: in a message [pre ++ m ++ mid ++ t ++ post] in which
    [m] is the first occurrence of the marker in the whole message, [t]
    is the last occurrence of the trace fragment in the whole message,
    and [mid], all the text between them, is not empty and has no CR,
    U+2028 or U+2029, the replacement gives [pre ++ t ++ post]: it drops
    everything from the first marker up to the last fragment, every
    marker included, and keeps the text before the first marker, the
    last fragment and the text after it.  Nothing is said of a message
    with a CR, U+2028 or U+2029 between its first marker and its last
    fragment. *)
Theorem dedupe_collapses pre m mid t post :
  matchLit marker m = Some (m, []) ->
  matchLit atTranspile t = Some (t, []) ->
  beginsWithin marker pre (m ++ mid ++ t ++ post) = false ->
  truthy_str mid = true ->
  forallb dotOrNl mid = true ->
  occurs atTranspile (tail (t ++ post)) = false ->
  replace (pre ++ m ++ mid ++ t ++ post) = pre ++ t ++ post
  /\ dedupeErrors [pre ++ m ++ mid ++ t ++ post] = [pre ++ t ++ post].
Proof.
  intros Hm Ht Hfirst Hmid Hall Hlast.
  assert (Hrep : replace (pre ++ m ++ mid ++ t ++ post) = pre ++ t ++ post).
  { rewrite replace_before_marker by exact Hfirst. f_equal.
    rewrite replace_eq. unfold matchAt.
    rewrite (matchLit_app _ _ _ Hm).
    rewrite (plusThenTrace_last mid t post); try assumption.
    - f_equal. apply replace_no_trace.
      destruct (matchLit_split _ _ _ _ Ht) as [_ Hlen].
      destruct t as [|c t']; [discriminate Hlen|].
      cbn [app tail] in Hlast. eapply occurs_suffix, Hlast.
    - destruct mid; [discriminate Hmid|discriminate]. }
  split; [exact Hrep|]. unfold dedupeErrors. cbn [map]. rewrite Hrep. reflexivity.
Qed.

End Dedupe.

(** * Instances of the claims on the concrete collaborators *)


Lemma one_shot_start_witness :
  c_watch Demo.buildCompiler = false /\
  callbacks (eventsOf (@session _ Demo.collaborators Demo.buildCompiler
                         (Some 1%nat) [Failed Demo.boom; Done Demo.stats])
               Demo.world)
  = [(UserCb 1, Some Demo.boom, None)].
Proof.
  split; [reflexivity|].
  apply (@one_shot_start Demo.types Demo.collaborators Demo.buildCompiler
           (Some 1%nat) (Failed Demo.boom) [Done Demo.stats] Demo.world).
  reflexivity.
Defined.

Lemma shared_state_bag_witness :
  In (str "production") (default [] (a_envs Demo.watchArgs)) /\
  map (fun o => (env o, target o, state o))
    (configRequests (eventsOf (@Compiler _ Demo.collaborators Demo.watchArgs)
                       Demo.world))
  = [(str "production", web, 2%nat); (str "production", node, 2%nat);
     (str "development", web, 2%nat); (str "development", node, 2%nat)].
Proof.
  split; [left; reflexivity|].
  destruct (@shared_state_bag Demo.types Demo.collaborators Demo.watchArgs
              Demo.world) as [Hreq _].
  rewrite Hreq. reflexivity.
Defined.

Lemma production_asset_report_witness :
  includes [str "development"] (str "production") = false /\
  logged info (eventsOf (@statsLogger _ Demo.collaborators (str ".")
                           [str "production"] None (Some Demo.stats)) Demo.world)
  = [LStr (str "Entrypoint: client"); LStr (str "Asset: c.js");
     LStr (str "Size: 900 bytes");
     LStr (str "Entrypoint: client"); LStr (str "Asset: b.js");
     LStr (str "Size: 300 bytes")] /\
  logged info (eventsOf (@statsLogger _ Demo.collaborators (str ".")
                           [str "development"] None (Some Demo.stats)) Demo.world)
  = [].
Proof.
  destruct (@production_asset_report Demo.types Demo.collaborators) as [Hprod Hdev].
  split; [reflexivity|]. split.
  - apply (Hprod (str ".") Demo.stats (str "client") Demo.world). reflexivity.
  - apply Hdev. reflexivity.
Defined.

Lemma dedupe_keeps_entries_witness :
  hasErrors Demo.stats = true /\
  logged error (eventsOf (@statsLogger _ Demo.collaborators (str ".")
                            [str "production"] None (Some Demo.stats)) Demo.world)
  = [LStr (str "Module not found"); LStr (str "Module not found")].
Proof.
  split; [reflexivity|].
  destruct (@dedupe_keeps_entries Demo.types Demo.collaborators)
    as (_ & _ & _ & Herr & _).
  rewrite Herr by reflexivity. vm_compute. reflexivity.
Defined.

Lemma middleware_chain_witness :
  @dev _ Demo.collaborators 1%nat 5%nat = DevCallback (Some Demo.boom) /\
  @dev _ Demo.collaborators 0%nat 5%nat = DevCallback None /\
  eventsOf (@middleware _ Demo.collaborators 1%nat 5%nat 9%nat) Demo.world
  = [EDev 1 5; ENext 9 (Some Demo.boom)] /\
  eventsOf (@middleware _ Demo.collaborators 0%nat 5%nat 9%nat) Demo.world
  = [EDev 0 5; EHot 0 5 9].
Proof.
  split; [reflexivity|]. split; [reflexivity|]. split.
  - apply (@middleware_chain Demo.types Demo.collaborators 1%nat 5%nat 9%nat
             Demo.world). reflexivity.
  - apply (@middleware_chain Demo.types Demo.collaborators 0%nat 5%nat 9%nat
             Demo.world). reflexivity.
Defined.


Lemma dedupe_collapses_witness :
  Re.replace
    (str "E: " ++ str "babelLoaderError"
     ++ str ": x
    at transpile (a)
BabelLoaderError: x
" ++ str "    AT transpile" ++ str " (b)")
  = str "E: " ++ str "    AT transpile" ++ str " (b)".
Proof.
  apply (dedupe_collapses (str "E: ") (str "babelLoaderError")
           (str ": x
    at transpile (a)
BabelLoaderError: x
") (str "    AT transpile") (str " (b)")); reflexivity.
Defined.

(** * Where the design document and the code differ *)

(** C5: the marker is not kept.  With the marker and the fragment twice
    in a message, what is left is the last fragment and the text after
    it, not the last marker with its fragment; and with CR LF line ends
    nothing is removed at all. *)
Lemma dedupe_drops_marker :
  Re.replace Demo.twice = str "    at transpile (b)" /\
  Re.replace Demo.twice <> str "BabelLoaderError: x
    at transpile (b)" /\
  Re.occurs Re.marker (Re.replace Demo.twice) = false /\
  Re.replace Demo.twiceCRLF = Demo.twiceCRLF.
Proof.
  split; [vm_compute; reflexivity|].
  split; [vm_compute; discriminate|].
  split; vm_compute; reflexivity.
Qed.

(** C7: a hard error that is not the first completion of a watch run is
    logged but never given to the callback. *)
Lemma later_hard_error_not_forwarded :
  hardErrors [Done Demo.stats; Failed Demo.boom] = [Demo.boom] /\
  logged error
    (eventsOf (@session _ Demo.collaborators Demo.watchCompiler (Some 1%nat)
                 [Done Demo.stats; Failed Demo.boom]) Demo.world)
  = [LStr (str "Module not found"); LStr (str "Module not found");
     LStr (str "Error: boom at build"); LStr (str "config is invalid")] /\
  forwardedErrors
    (eventsOf (@session _ Demo.collaborators Demo.watchCompiler (Some 1%nat)
                 [Done Demo.stats; Failed Demo.boom]) Demo.world)
  = [].
Proof.
  split; [reflexivity|]. split; vm_compute; reflexivity.
Qed.


(** * Further properties of the code *)

(** ** [dedupeErrors] *)

Module ReMore.
Import Re ReFacts.

(** A string no suffix of which matches is copied as it is. *)
Lemma replace_no_match s :
  (forall k, matchAt (drop k s) = None) -> replace s = s.
Proof.
  induction s as [|c s IH]; intros H; rewrite replace_eq;
    pose proof (H 0%nat) as H0; rewrite drop_0 in H0; rewrite H0.
  - reflexivity.
  - f_equal. apply IH. intros k. apply (H (S k)).
Qed.

Lemma occurs_drop lit k s : occurs lit s = false -> occurs lit (drop k s) = false.
Proof.
  intros H. rewrite <- (take_drop k s) in H. eapply occurs_suffix, H.
Qed.

Lemma matchAt_marker s r : matchAt s = Some r -> occurs marker s = true.
Proof.
  unfold matchAt. destruct (matchLit marker s) as [[m s1]|] eqn:E; [|discriminate].
  intros _. eapply occurs_head, E.
Qed.

(** A match needs the trace fragment to begin at least 17 code units
    after its start: the 16 of the marker and one more. *)
Lemma matchAt_trace_later s r :
  matchAt s = Some r -> occurs atTranspile (drop 17 s) = true.
Proof.
  unfold matchAt. destruct (matchLit marker s) as [[m s1]|] eqn:E; [|discriminate].
  intros H. destruct (matchLit_split _ _ _ _ E) as [-> Hlen].
  apply plusThenTrace_occurs in H.
  change (length marker) with 16%nat in Hlen.
  rewrite drop_app_ge by lia. rewrite Hlen.
  destruct s1 as [|c s1]; [discriminate H|exact H].
Qed.

(** The parts of a match: the marker, the run, group 2, and the rest. *)
Lemma matchAt_parts s g rest :
  matchAt s = Some (g, rest) ->
  exists m mid, s = m ++ mid ++ g ++ rest /\ length m = 16%nat /\ mid <> []
                /\ length g = 16%nat.
Proof.
  unfold matchAt. destruct (matchLit marker s) as [[m s1]|] eqn:E; [|discriminate].
  intros H. destruct (matchLit_split _ _ _ _ E) as [-> Hlen].
  destruct (plusThenTrace_split _ _ _ H) as (mid & -> & Hne & _ & Hg).
  destruct (matchLit_split _ _ _ _ Hg) as [_ Hlg].
  exists m, mid. repeat split; assumption.
Qed.

Lemma replace_length_bound n : forall s,
  (length s <= n)%nat -> (length (replace s) <= length s)%nat.
Proof.
  induction n as [|n IH]; intros s Hn.
  - destruct s; [reflexivity|cbn [length] in Hn; lia].
  - rewrite replace_eq. destruct (matchAt s) as [[g rest]|] eqn:E.
    + apply matchAt_parts in E as (m & mid & -> & Hm & Hmid & Hg).
      rewrite !length_app in *. specialize (IH rest). lia.
    + destruct s as [|c s]; [reflexivity|]. cbn [length] in *.
      specialize (IH s). lia.
Qed.

(** A message is left as it is or loses at least 17 code units. *)
Lemma replace_shrinks n : forall s,
  (length s <= n)%nat ->
  replace s = s \/ (length (replace s) + 17 <= length s)%nat.
Proof.
  induction n as [|n IH]; intros s Hn.
  - destruct s; [left; reflexivity|cbn [length] in Hn; lia].
  - rewrite replace_eq. destruct (matchAt s) as [[g rest]|] eqn:E.
    + right. apply matchAt_parts in E as (m & mid & -> & Hm & Hmid & Hg).
      pose proof (replace_length_bound (length rest) rest (le_n _)).
      destruct mid; [congruence|].
      rewrite !length_app in *. cbn [length] in *. lia.
    + destruct s as [|c s]; [left; reflexivity|]. cbn [length] in *.
      destruct (IH s) as [->|Hs]; [lia|left; reflexivity|right].
      cbn [length]. lia.
Qed.

End ReMore.

Section DedupeMore.
Import Re ReFacts ReMore.

(** X1: [dedupeErrors] never makes a message longer: every message of
    the result is the message it comes from, unchanged, or is at least
    17 code units shorter (the marker and one more code unit). *)
Theorem dedupe_never_longer items :
  Forall2 (fun m m' => m' = m \/ (length m' + 17 <= length m)%nat)
    items (dedupeErrors items).
Proof.
  induction items as [|m items IH]; [constructor|].
  cbn [dedupeErrors map]. constructor; [|exact IH].
  apply (replace_shrinks (length m)). reflexivity.
Qed.

(** X2: messages in which the marker does not occur, or the trace
    fragment does not occur, are logged as they are. *)
Theorem dedupe_without_marker_or_trace items :
  Forall (fun m => occurs marker m = false \/ occurs atTranspile m = false) items ->
  dedupeErrors items = items.
Proof.
  induction 1 as [|m items Hm _ IH]; [reflexivity|].
  cbn [dedupeErrors map]. fold (dedupeErrors items). rewrite IH. f_equal.
  destruct Hm as [Hm|Hm]; [|apply replace_no_trace, Hm].
  apply replace_no_match. intros k.
  destruct (matchAt (drop k m)) as [r|] eqn:E; [|reflexivity].
  apply matchAt_marker in E. rewrite (occurs_drop _ k _ Hm) in E. discriminate.
Qed.

(** X3: the pattern needs at least one code unit between the marker and
    the trace fragment: a message whose only marker is followed at once
    by its only trace fragment is left as it is. *)
Theorem dedupe_needs_text_between pre m t post :
  matchLit marker m = Some (m, []) ->
  matchLit atTranspile t = Some (t, []) ->
  beginsWithin marker pre (m ++ t ++ post) = false ->
  occurs atTranspile (tail (t ++ post)) = false ->
  replace (pre ++ m ++ t ++ post) = pre ++ m ++ t ++ post.
Proof.
  intros Hm Ht Hfirst Hlast.
  rewrite replace_before_marker by exact Hfirst. f_equal.
  apply replace_no_match. intros k.
  destruct (matchAt (drop k (m ++ t ++ post))) as [r|] eqn:E; [|reflexivity].
  apply matchAt_trace_later in E.
  destruct (matchLit_split _ _ _ _ Hm) as [_ Hlen].
  change (length marker) with 16%nat in Hlen.
  rewrite drop_drop in E. rewrite drop_app_ge in E by lia.
  replace (k + 17 - length m)%nat with (S k) in E by lia.
  assert (Hd : forall l : jsstring, drop (S k) l = drop k (tail l)).
  { intros [|c l]; [cbn [tail]; rewrite !drop_nil; reflexivity|reflexivity]. }
  rewrite Hd, (occurs_drop _ k _ Hlast) in E. discriminate.
Qed.

End DedupeMore.

Lemma dedupe_without_marker_or_trace_witness :
  dedupeErrors [str "Module not found"; str "BabelLoaderError: no stack";
                str "    at transpile (x)"]
  = [str "Module not found"; str "BabelLoaderError: no stack";
     str "    at transpile (x)"].
Proof.
  apply dedupe_without_marker_or_trace.
  constructor; [left; reflexivity|].
  constructor; [right; reflexivity|].
  constructor; [left; reflexivity|].
  constructor.
Defined.

Lemma dedupe_needs_text_between_witness :
  Re.replace (str "E: " ++ str "BabelLoaderError" ++ str "    at transpile"
              ++ str " (x)")
  = str "E: " ++ str "BabelLoaderError" ++ str "    at transpile" ++ str " (x)".
Proof.
  apply (dedupe_needs_text_between (str "E: ") (str "BabelLoaderError")
           (str "    at transpile") (str " (x)")); reflexivity.
Defined.

(** ** The reporter *)

Lemma startsWith_spec s pre :
  startsWith s pre = true <-> exists r, s = pre ++ r.
Proof.
  revert s. induction pre as [|p pre IH]; intros s.
  - split; [intros _; exists s; reflexivity|intros _; destruct s; reflexivity].
  - destruct s as [|c s]; cbn [startsWith].
    + split; [discriminate|intros [r Hr]; discriminate Hr].
    + rewrite andb_true_iff, N.eqb_eq, IH. split.
      * intros [-> [r ->]]. exists r. reflexivity.
      * intros [r Hr]. injection Hr as -> ->. split; [reflexivity|eauto].
Qed.

Lemma endsWith_spec s suffix :
  endsWith s suffix = true <-> exists p, s = p ++ suffix.
Proof.
  unfold endsWith. rewrite startsWith_spec. split.
  - intros [r Hr]. exists (rev r).
    rewrite <- (rev_involutive s), Hr, rev_app_distr, rev_involutive. reflexivity.
  - intros [p ->]. exists (rev p). apply rev_app_distr.
Qed.

Section ReporterMore.
Context {Ty : Types} {Co : @Collaborators Ty}.

Lemma written_map_log lvl (xs : list LogArg) : written (map (ELog lvl) xs) = [].
Proof. induction xs as [|x xs IH]; [reflexivity|exact IH]. Qed.

Lemma written_asset_lines (cs : list Child) :
  written
    (flat_map (fun child =>
       flat_map (fun asset =>
         [ELog info (entrypointLine child); ELog info (assetLine asset);
          ELog info (sizeLine asset)]) (shownAssets child)) cs)
  = [].
Proof.
  induction cs as [|c cs IH]; [reflexivity|]. cbn [flat_map].
  rewrite written_app, IH, app_nil_r.
  induction (shownAssets c) as [|a l IHl]; [reflexivity|exact IHl].
Qed.

(** What a run of the reporter writes. *)
Lemma written_report dir envs c :
  written (reportEvents dir envs c)
  = match c with
    | Failed _ => []
    | Done stats =>
        [(path_resolve [dir; str ".fusion/stats.json"],
          JSON_stringify (toJson stats (path_resolve [dir])))]
    end.
Proof.
  unfold reportEvents. destruct c as [e|st]; cbn [completion_err completion_stats].
  - rewrite (eventsOf_emits _ _ _ (statsLogger_Failed dir envs e None)).
    destruct (details e) as [d|]; [|reflexivity].
    destruct (truthy_str d); reflexivity.
  - rewrite (eventsOf_emits _ _ _ (statsLogger_Done dir envs st)).
    match goal with |- written (?e :: ?l) = _ => change (e :: l) with ([e] ++ l) end.
    rewrite !written_app.
    rewrite <- !(map_map LStr (ELog _)).
    destruct (hasErrors st), (includes envs (str "production")), (hasWarnings st);
      rewrite ?written_map_log, ?written_asset_lines; reflexivity.
Qed.

Lemma written_Done dir envs stats w :
  written (eventsOf (statsLogger dir envs None (Some stats)) w)
  = [(path_resolve [dir; str ".fusion/stats.json"],
      JSON_stringify (toJson stats (path_resolve [dir])))].
Proof.
  pose proof (written_report dir envs (Done stats)) as H.
  unfold reportEvents in H. cbn [completion_err completion_stats] in H.
  rewrite (eventsOf_emits _ _ w (statsLogger_Done dir envs stats)).
  rewrite (eventsOf_emits _ _ _ (statsLogger_Done dir envs stats)) in H.
  exact H.
Qed.

(** X4: on a stats snapshot the reporter first writes the stats file,
    once, at [.fusion/stats.json] under [dir], and then logs in this
    order: the errors, the asset lines, the warnings. *)
Theorem report_order dir envs stats w :
  let es := eventsOf (statsLogger dir envs None (Some stats)) w in
  es = EWriteFile (path_resolve [dir; str ".fusion/stats.json"])
         (JSON_stringify (toJson stats (path_resolve [dir])))
       :: map (ELog error) (logged error es)
       ++ map (ELog info) (logged info es)
       ++ map (ELog warn) (logged warn es)
  /\ written es
     = [(path_resolve [dir; str ".fusion/stats.json"],
         JSON_stringify (toJson stats (path_resolve [dir])))].
Proof.
  intros es. split.
  - unfold es. rewrite !logged_Done.
    rewrite (eventsOf_emits _ _ w (statsLogger_Done dir envs stats)).
    f_equal. f_equal; [|f_equal].
    + destruct (hasErrors stats); [|reflexivity]. rewrite map_map. reflexivity.
    + destruct (includes envs (str "production")); [|reflexivity].
      induction (children (toJson stats (path_resolve [dir]))) as [|c cs IH];
        [reflexivity|].
      cbn [flat_map]. rewrite map_app, <- IH. f_equal.
      induction (shownAssets c) as [|a l IHl]; [reflexivity|].
      cbn [flat_map app map]. rewrite <- IHl. reflexivity.
    + destruct (hasWarnings stats); [|reflexivity]. rewrite map_map. reflexivity.
  - apply written_Done.
Qed.

(** X5: the lists of the snapshot are logged only behind their guards:
    when [stats.hasErrors()] is false nothing is logged at level error
    and when [stats.hasWarnings()] is false nothing at level warn,
    whatever [info.errors] and [info.warnings] hold. *)
Theorem report_guards dir envs stats w :
  let es := eventsOf (statsLogger dir envs None (Some stats)) w in
  (hasErrors stats = false -> logged error es = []) /\
  (hasWarnings stats = false -> logged warn es = []).
Proof.
  intros es. unfold es. rewrite !logged_Done.
  split; intros ->; reflexivity.
Qed.

(** X6: with a ["production"] environment the reporter logs, for every
    child in order, three lines for each asset whose name does not end
    in [.map], by decreasing size: the assets shown are a rearrangement
    of those assets, none of them ends in [.map], and the number of lines
    is three times their number. *)
Theorem asset_report_sorted dir envs stats w :
  includes envs (str "production") = true ->
  let cs := children (toJson stats (path_resolve [dir])) in
  let nonMap := fun asset => negb (endsWith (asset_name asset) (str ".map")) in
  let es := eventsOf (statsLogger dir envs None (Some stats)) w in
  logged info es
  = flat_map (fun child =>
      flat_map (fun asset => [entrypointLine child; assetLine asset; sizeLine asset])
        (shownAssets child)) cs /\
  Forall (fun child =>
    StronglySorted (fun a b => (asset_size b <= asset_size a)%Z) (shownAssets child) /\
    Permutation (shownAssets child) (List.filter nonMap (child_assets child)) /\
    Forall (fun a => forall p, asset_name a <> p ++ str ".map") (shownAssets child))
    cs /\
  length (logged info es)
  = (3 * length (flat_map (fun child => List.filter nonMap (child_assets child)) cs))%nat.
Proof.
  intros Hprod cs nonMap es.
  assert (Hlog : logged info es
    = flat_map (fun child =>
        flat_map (fun asset => [entrypointLine child; assetLine asset; sizeLine asset])
          (shownAssets child)) cs).
  { unfold es. rewrite logged_Done, Hprod. reflexivity. }
  split; [exact Hlog|]. split.
  - apply Forall_forall. intros child _.
    destruct (shownAssets_sorted child) as [Hs Hp].
    split; [exact Hs|]. split; [exact Hp|].
    apply Forall_forall. intros a Ha p Hname.
    apply list_elem_of_In in Ha.
    apply (Permutation_in _ Hp), filter_In in Ha as [_ Ha].
    assert (Hends : endsWith (asset_name a) (str ".map") = true)
      by (apply endsWith_spec; eauto).
    rewrite Hends in Ha. discriminate.
  - rewrite Hlog. clear Hlog es. subst nonMap.
    induction cs as [|c cs IH]; [reflexivity|].
    cbn [flat_map]. rewrite !length_app, IH.
    assert (Hc : length (flat_map (fun asset =>
                   [entrypointLine c; assetLine asset; sizeLine asset])
                   (shownAssets c))
                 = (3 * length (List.filter
                                  (fun asset =>
                                     negb (endsWith (asset_name asset) (str ".map")))
                                  (child_assets c)))%nat).
    { destruct (shownAssets_sorted c) as [_ Hp].
      rewrite <- (Permutation_length Hp). clear Hp IH.
      induction (shownAssets c) as [|a l IHl]; [reflexivity|].
      cbn [flat_map app length]. rewrite IHl. lia. }
    rewrite Hc. cbn [length]. lia.
Qed.

End ReporterMore.

(** ** The methods of [Compiler] *)

Section OrchestratorMore.
Context {Ty : Types} {Co : @Collaborators Ty}.

Lemma written_hooks type c (taps : list nat) :
  written (map (fun f => EHook type f c) taps) = [].
Proof. induction taps as [|f taps IH]; [reflexivity|exact IH]. Qed.

(** X7: in a run, the stats file is written once for every completion
    that carries stats, in order, and never for a completion that
    carries a hard error: the file on disk is that of the last build that
    completed with stats. *)
Theorem stats_file_per_success co cb c cs w :
  written (eventsOf (session co cb (c :: cs)) w)
  = flat_map (fun c' =>
      match c' with
      | Failed _ => []
      | Done stats =>
          [(path_resolve [c_dir co; str ".fusion/stats.json"],
            JSON_stringify (toJson stats (path_resolve [c_dir co])))]
      end) (c :: cs).
Proof.
  rewrite (eventsOf_trace _ w _ (f_equal (fun r => trace (snd r))
                                   (session_runs co cb c cs w))).
  assert (Hrest : forall taps,
    written (flat_map (fun c' =>
               map (fun f => EHook (str "done") f c') taps
               ++ reportEvents (c_dir co) (c_envs co) c') cs)
    = flat_map (fun c' =>
        match c' with
        | Failed _ => []
        | Done stats =>
            [(path_resolve [c_dir co; str ".fusion/stats.json"],
              JSON_stringify (toJson stats (path_resolve [c_dir co])))]
        end) cs).
  { intros taps. induction cs as [|c' cs IH]; [reflexivity|]. cbn [flat_map].
    rewrite !written_app, written_hooks, written_report, IH. reflexivity. }
  assert (Hstart : forall h, written [if c_watch co then EWatch h else ERun h] = [])
    by (intros h; destruct (c_watch co); reflexivity).
  rewrite !written_app, written_hooks, written_report, Hstart, Hrest.
  cbn [flat_map written app]. rewrite app_nil_r. reflexivity.
Qed.

(** X8: called with neither an error nor stats, the handler throws a
    [TypeError] before anything is written, logged or called, and the
    world, [hasCalledCb] included, is as before: a later completion
    still reaches the callback. *)
Theorem handler_without_stats co h c w :
  handler co h None None w
  = (Throw (TypeError (str "Cannot read property 'toJson' of undefined")), w) /\
  (heap w !! h_hasCalledCb h = Some (OCell false) ->
   callbacks (eventsOf (handler co h (completion_err c) (completion_stats c))
                (snd (handler co h None None w)))
   = [(h_cb h, completion_err c, completion_stats c)]).
Proof.
  assert (Hthrow : handler co h None None w
            = (Throw (TypeError (str "Cannot read property 'toJson' of undefined")), w)).
  { unfold handler. erewrite bind_Throw by apply statsLogger_undefined. reflexivity. }
  split; [exact Hthrow|]. intros Hcell. rewrite Hthrow. cbn [snd].
  rewrite (eventsOf_trace _ w _ (f_equal (fun r => trace (snd r))
                                   (handler_armed co h c w Hcell))).
  rewrite callbacks_app, (callbacks_report _ (reportEvents_isReport _ _ c)).
  reflexivity.
Qed.

End OrchestratorMore.

Section LatchMore.
Context {Ty : Types} {Co : @Collaborators Ty}.

(** X10: every call of [start] has a [hasCalledCb] of its own: after two
    calls, the handler of each calls its own callback on its first
    completion, whatever the other handler has done, and no callback on
    a later one. *)
Theorem start_latches_independent co cb1 cb2 c1 c2 c3 c4 w :
  let cbOf := fun cb : option nat =>
    match cb with Some f => UserCb f | None => noop end in
  let h1 := {| h_cb := cbOf cb1; h_hasCalledCb := length (heap w) |} in
  let h2 := {| h_cb := cbOf cb2; h_hasCalledCb := S (length (heap w)) |} in
  let run :=
    start co cb1 ;; start co cb2 ;;
    handler co h1 (completion_err c1) (completion_stats c1) ;;
    handler co h2 (completion_err c2) (completion_stats c2) ;;
    handler co h1 (completion_err c3) (completion_stats c3) ;;
    handler co h2 (completion_err c4) (completion_stats c4) in
  fst (run w) = Ret tt /\
  eventsOf run w
  = [if c_watch co then EWatch h1 else ERun h1;
     if c_watch co then EWatch h2 else ERun h2]
    ++ reportEvents (c_dir co) (c_envs co) c1
    ++ [ECallback (cbOf cb1) (completion_err c1) (completion_stats c1)]
    ++ reportEvents (c_dir co) (c_envs co) c2
    ++ [ECallback (cbOf cb2) (completion_err c2) (completion_stats c2)]
    ++ reportEvents (c_dir co) (c_envs co) c3
    ++ reportEvents (c_dir co) (c_envs co) c4 /\
  callbacks (eventsOf run w)
  = [(cbOf cb1, completion_err c1, completion_stats c1);
     (cbOf cb2, completion_err c2, completion_stats c2)].
Proof.
  intros cbOf h1 h2 run.
  set (n := length (heap w)).
  assert (Hn : length (heap w ++ [OCell false]) = S n)
    by (rewrite length_app; cbn [length]; lia).
  assert (Hrun : run w
    = (Ret tt,
       {| trace := trace w
            ++ [if c_watch co then EWatch h1 else ERun h1;
                if c_watch co then EWatch h2 else ERun h2]
            ++ reportEvents (c_dir co) (c_envs co) c1
            ++ [ECallback (cbOf cb1) (completion_err c1) (completion_stats c1)]
            ++ reportEvents (c_dir co) (c_envs co) c2
            ++ [ECallback (cbOf cb2) (completion_err c2) (completion_stats c2)]
            ++ reportEvents (c_dir co) (c_envs co) c3
            ++ reportEvents (c_dir co) (c_envs co) c4;
          heap := <[S n := OCell true]>
                    (<[n := OCell true]>
                       ((heap w ++ [OCell false]) ++ [OCell false]));
          hooks := hooks w;
          registered := Some h2;
          fs := fs w |})).
  { unfold run.
    erewrite bind_Ret by apply start_runs.
    erewrite bind_Ret by apply start_runs.
    cbn [trace heap hooks registered fs]. rewrite Hn. fold n. fold (cbOf cb1) (cbOf cb2).
    fold h1 h2.
    erewrite bind_Ret.
    2:{ apply (handler_armed co h1 c1). cbn [heap h_hasCalledCb h1].
        rewrite lookup_app_l by (rewrite Hn; lia).
        apply list_lookup_middle. reflexivity. }
    erewrite bind_Ret.
    2:{ apply (handler_armed co h2 c2). cbn [heap h_hasCalledCb h1 h2].
        rewrite list_lookup_insert_ne by lia.
        apply list_lookup_middle. rewrite Hn. reflexivity. }
    erewrite bind_Ret.
    2:{ apply (handler_fired co h1 c3). cbn [heap h_hasCalledCb h1 h2].
        rewrite list_lookup_insert_ne by lia.
        apply list_lookup_insert_eq. rewrite length_app, Hn. cbn [length]. lia. }
    rewrite (handler_fired co h2 c4).
    2:{ cbn [addTrace heap h_hasCalledCb h1 h2].
        apply list_lookup_insert_eq.
        rewrite length_insert, length_app, Hn. cbn [length]. lia. }
    unfold addTrace. cbn [trace heap hooks registered fs h_cb h1 h2].
    f_equal. f_equal. rewrite <- !app_assoc. reflexivity. }
  assert (Hes : eventsOf run w
    = [if c_watch co then EWatch h1 else ERun h1;
       if c_watch co then EWatch h2 else ERun h2]
      ++ reportEvents (c_dir co) (c_envs co) c1
      ++ [ECallback (cbOf cb1) (completion_err c1) (completion_stats c1)]
      ++ reportEvents (c_dir co) (c_envs co) c2
      ++ [ECallback (cbOf cb2) (completion_err c2) (completion_stats c2)]
      ++ reportEvents (c_dir co) (c_envs co) c3
      ++ reportEvents (c_dir co) (c_envs co) c4).
  { apply eventsOf_trace. rewrite Hrun. reflexivity. }
  split; [rewrite Hrun; reflexivity|]. split; [exact Hes|].
  rewrite Hes, !callbacks_app.
  rewrite !(callbacks_report _ (reportEvents_isReport _ _ _)).
  destruct (c_watch co); reflexivity.
Qed.

End LatchMore.

Section ConstructorMore.
Context {Ty : Types} {Co : @Collaborators Ty}.

(** The bag of a constructor and where it is. *)
Lemma shared_state_bag_at args w :
  let l := length (heap w) in
  let w' := snd (Compiler args w) in
  Forall (fun o => state o = (l + 2)%nat)
    (configRequests (eventsOf (Compiler args) w)) /\
  heap w' !! (l + 2)%nat = Some (OState l (l + 1)%nat) /\
  heap w' !! l = Some (ODeferredState Pending) /\
  heap w' !! (l + 1)%nat = Some (ODeferredState Pending) /\
  (l + 3 <= length (heap w'))%nat.
Proof.
  intros l w'.
  destruct (Compiler_requests args w) as [Hreq _].
  split.
  { rewrite Hreq. apply Forall_forall. intros o Ho. apply list_elem_of_In in Ho.
    apply in_flat_map in Ho as (e & _ & Ho). cbn [In] in Ho.
    destruct Ho as [<-|[<-|[]]]; reflexivity. }
  unfold w'. rewrite Compiler_runs. cbn [snd heap]. fold l.
  repeat split.
  - rewrite lookup_app_r by lia. replace (l + 2 - length (heap w))%nat with 2%nat
      by (unfold l; lia). reflexivity.
  - rewrite lookup_app_r by (unfold l; lia).
    replace (l - length (heap w))%nat with 0%nat by (unfold l; lia). reflexivity.
  - rewrite lookup_app_r by (unfold l; lia).
    replace (l + 1 - length (heap w))%nat with 1%nat by (unfold l; lia).
    reflexivity.
  - rewrite !length_app. cbn [length]. unfold l. lia.
Qed.

(** X11: every call of the config provider gets the resolved project
    root, not [dir] as given, and the watch flag of the constructor; the
    defaults are [.] and no watch; the reporter and [clean] keep [dir]
    as it was given. *)
Theorem provider_gets_root_and_watch args w :
  let given := default (str ".") (a_dir args) in
  let flag := default false (a_watch args) in
  Forall (fun o => dir o = path_resolve [given] /\ watch o = flag)
    (configRequests (eventsOf (Compiler args) w)) /\
  fst (Compiler args w)
  = Ret {| c_dir := given; c_envs := default [] (a_envs args); c_watch := flag |}.
Proof.
  intros given flag. split.
  - destruct (Compiler_requests args w) as [Hreq _]. rewrite Hreq.
    apply Forall_forall. intros o Ho. apply list_elem_of_In in Ho.
    apply in_flat_map in Ho as (e & _ & Ho). cbn [In] in Ho.
    destruct Ho as [<-|[<-|[]]]; split; reflexivity.
  - rewrite Compiler_runs. reflexivity.
Qed.

(** X12: when the project has no [package.json], the provider gets a
    fresh empty object as [legacyPkgConfig], the same for every call,
    allocated by this constructor and distinct from the state bag and
    its two deferred values; when it has one, the provider gets the
    required file and the constructor allocates nothing but the bag and
    its two values. *)
Theorem package_json_fallback args w :
  let root := path_resolve [default (str ".") (a_dir args)] in
  let pkgPath := path_join [root; str "package.json"] in
  let l := length (heap w) in
  let es := eventsOf (Compiler args) w in
  let w' := snd (Compiler args w) in
  (existsSync pkgPath = false ->
     Forall (fun o => legacyPkgConfig o = PkgFresh (l + 3)%nat
                      /\ state o <> (l + 3)%nat) (configRequests es) /\
     heap w !! (l + 3)%nat = None /\
     heap w' !! (l + 3)%nat = Some OEmpty /\
     length (heap w') = (l + 4)%nat) /\
  (existsSync pkgPath = true ->
     Forall (fun o => legacyPkgConfig o = PkgModule (require pkgPath))
       (configRequests es) /\
     length (heap w') = (l + 3)%nat).
Proof.
  intros root pkgPath l es w'.
  destruct (Compiler_requests args w) as [Hreq _]. fold es in Hreq.
  fold root pkgPath l in Hreq.
  assert (Hheap : heap w'
    = heap w ++ [ODeferredState Pending; ODeferredState Pending;
                 OState l (l + 1)%nat]
      ++ (if existsSync pkgPath then [] else [OEmpty])).
  { unfold w'. rewrite Compiler_runs. reflexivity. }
  split; intros Hex; rewrite Hex in Hreq, Hheap.
  - split; [|split; [|split]].
    + rewrite Hreq. apply Forall_forall. intros o Ho. apply list_elem_of_In in Ho.
      apply in_flat_map in Ho as (e & _ & Ho). cbn [In] in Ho.
      destruct Ho as [<-|[<-|[]]]; (split; [reflexivity|cbn; lia]).
    + apply lookup_ge_None. unfold l. lia.
    + rewrite Hheap, lookup_app_r by (unfold l; lia).
      replace (l + 3 - length (heap w))%nat with 3%nat by (unfold l; lia).
      reflexivity.
    + rewrite Hheap, length_app. cbn [length app]. unfold l. lia.
  - split.
    + rewrite Hreq. apply Forall_forall. intros o Ho. apply list_elem_of_In in Ho.
      apply in_flat_map in Ho as (e & _ & Ho). cbn [In] in Ho.
      destruct Ho as [<-|[<-|[]]]; reflexivity.
    + rewrite Hheap, length_app. cbn [length app]. unfold l. lia.
Qed.

(** X13: two compilers constructed one after the other do not share
    their state bag: the provider calls of the first, two for each of
    its environments, all carry the bag of the first, those of the
    second all carry the bag of the second, and the two bags and their
    four deferred values are all in the heap at different locations.
    (Only the bag and its values are meant: a [package.json] that both
    require is the same object for both.) *)
Theorem compilers_share_nothing args1 args2 w :
  let w1 := snd (Compiler args1 w) in
  let w2 := snd (Compiler args2 w1) in
  let l1 := length (heap w) in
  let l2 := length (heap w1) in
  map state (configRequests (eventsOf (Compiler args1) w))
  = flat_map (fun _ => [(l1 + 2)%nat; (l1 + 2)%nat]) (default [] (a_envs args1)) /\
  map state (configRequests (eventsOf (Compiler args2) w1))
  = flat_map (fun _ => [(l2 + 2)%nat; (l2 + 2)%nat]) (default [] (a_envs args2)) /\
  (l1 + 2 < l2)%nat /\
  heap w2 !! (l1 + 2)%nat = Some (OState l1 (l1 + 1)%nat) /\
  heap w2 !! (l2 + 2)%nat = Some (OState l2 (l2 + 1)%nat) /\
  heap w2 !! l1 = Some (ODeferredState Pending) /\
  heap w2 !! (l1 + 1)%nat = Some (ODeferredState Pending) /\
  heap w2 !! l2 = Some (ODeferredState Pending) /\
  heap w2 !! (l2 + 1)%nat = Some (ODeferredState Pending).
Proof.
  intros w1 w2 l1 l2.
  destruct (shared_state_bag_at args1 w) as (_ & Hb1 & Hd1 & Hd1' & Hlen1).
  destruct (shared_state_bag_at args2 w1) as (_ & Hb2 & Hd2 & Hd2' & Hlen2).
  fold w1 l1 in Hb1, Hd1, Hd1', Hlen1.
  fold w2 l2 in Hb2, Hd2, Hd2', Hlen2.
  assert (Hstates : forall args w0,
    map state (configRequests (eventsOf (Compiler args) w0))
    = flat_map (fun _ => [(length (heap w0) + 2)%nat; (length (heap w0) + 2)%nat])
        (default [] (a_envs args))).
  { intros args w0. destruct (Compiler_requests args w0) as [Hreq _].
    rewrite Hreq, map_pairs. reflexivity. }
  assert (Hpre : exists ext, heap w2 = heap w1 ++ ext).
  { unfold w2. rewrite Compiler_runs. cbn [snd heap]. eauto. }
  destruct Hpre as [ext Hpre].
  assert (Hkeep : forall i o, heap w1 !! i = Some o -> heap w2 !! i = Some o).
  { intros i o Hi. rewrite Hpre. apply lookup_app_l_Some, Hi. }
  split; [apply Hstates|]. split; [apply Hstates|].
  repeat split; auto.
  unfold l2. lia.
Qed.

End ConstructorMore.

Section MiddlewareMore.
Context {Ty : Types} {Co : @Collaborators Ty}.

Lemma middleware_emits req res next :
  emits (middleware req res next)
    (EDev req res
     :: match dev req res with
        | DevCallback (Some err) => [ENext next (Some err)]
        | DevCallback None => [EHot req res next]
        | DevResponds => []
        end).
Proof.
  unfold middleware. apply (emits_seq _ _ [_]); [apply emits_emit|].
  destruct (dev req res) as [[e|]|]; first [apply emits_emit|apply emits_ret].
Qed.

(** X14: for every request the handler calls the development
    middleware once and then at most one of [next] and the hot
    middleware, never both; it calls [next] only with an error; and when
    the development middleware answers the request without calling back,
    neither is called. *)
Theorem middleware_one_continuation req res next w :
  let es := eventsOf (middleware req res next) w in
  fst (middleware req res next w) = Ret tt /\
  (es = [EDev req res]
   \/ (exists e, es = [EDev req res; ENext next (Some e)])
   \/ es = [EDev req res; EHot req res next]) /\
  (dev req res = DevResponds -> es = [EDev req res]).
Proof.
  intros es. unfold es.
  rewrite (eventsOf_emits _ _ w (middleware_emits req res next)).
  rewrite middleware_emits. split; [reflexivity|]. split.
  - destruct (dev req res) as [[e|]|]; eauto.
  - intros ->. reflexivity.
Qed.

(** X15: one call of [getMiddleware] creates the development middleware
    and then the hot middleware, once each; the handler it returns
    serves request after request without creating anything again. *)
Theorem middleware_created_once r1 s1 n1 r2 s2 n2 w :
  eventsOf (mw ← getMiddleware; mw r1 s1 n1 ;; mw r2 s2 n2) w
  = [ECreateDev; ECreateHot]
    ++ eventsOf (middleware r1 s1 n1) w
    ++ eventsOf (middleware r2 s2 n2) w.
Proof.
  rewrite !(eventsOf_emits _ _ w (middleware_emits _ _ _)).
  apply eventsOf_trace.
  erewrite bind_Ret by reflexivity.
  erewrite bind_Ret by apply middleware_emits.
  rewrite middleware_emits. cbn [snd addTrace trace].
  rewrite <- !app_assoc. reflexivity.
Qed.

(** X16: [clean] and the reporter start from the same [dir], the one
    given to the constructor or [.]: [clean] calls the removal once, on
    [dir] followed by [/.fusion], and does nothing else, and the
    reporter writes to [.fusion/stats.json] resolved against [dir]. *)
Theorem clean_and_stats_use_given_dir args stats w :
  let given := default (str ".") (a_dir args) in
  let co := {| c_dir := given; c_envs := default [] (a_envs args);
               c_watch := default false (a_watch args) |} in
  let w1 := snd (Compiler args w) in
  fst (Compiler args w) = Ret co /\
  eventsOf (clean co) w1 = [ERimraf (given ++ str "/.fusion")] /\
  (exists p, fst (clean co w1) = Ret p) /\
  map fst (written (eventsOf (statsLogger (c_dir co) (c_envs co) None (Some stats)) w1))
  = [path_resolve [given; str ".fusion/stats.json"]].
Proof.
  intros given co w1.
  split; [rewrite Compiler_runs; reflexivity|].
  assert (Hclean : exists p, clean co w1
            = (Ret p, snd (rimraf (given ++ str "/.fusion") w1))
            /\ trace (snd (rimraf (given ++ str "/.fusion") w1))
               = trace w1 ++ [ERimraf (given ++ str "/.fusion")]).
  { unfold clean, mbind, M_bind, rimraf. cbn [c_dir co].
    destruct (fs w1 !! (given ++ str "/.fusion")) as [[e|]|]; eexists;
      split; reflexivity. }
  destruct Hclean as (p & Hp & Htrace).
  split; [apply eventsOf_trace; rewrite Hp; exact Htrace|].
  split; [exists p; rewrite Hp; reflexivity|].
  rewrite written_Done. reflexivity.
Qed.

End MiddlewareMore.

(** ** Instances on the concrete collaborators *)

Lemma report_guards_witness :
  hasErrors Demo.quietStats = false /\
  hasWarnings Demo.quietStats = false /\
  logged error (eventsOf (@statsLogger _ Demo.collaborators (str ".")
                            [str "production"] None (Some Demo.quietStats))
                  Demo.world) = [] /\
  logged warn (eventsOf (@statsLogger _ Demo.collaborators (str ".")
                           [str "production"] None (Some Demo.quietStats))
                 Demo.world) = [].
Proof.
  destruct (@report_guards Demo.types Demo.collaborators (str ".")
              [str "production"] Demo.quietStats Demo.world) as [He Hw].
  split; [reflexivity|]. split; [reflexivity|].
  split; [apply He|apply Hw]; reflexivity.
Defined.

Lemma asset_report_sorted_witness :
  includes [str "development"; str "production"] (str "production") = true /\
  length (logged info
            (eventsOf (@statsLogger _ Demo.collaborators (str ".")
                         [str "development"; str "production"] None
                         (Some Demo.stats)) Demo.world))
  = 6%nat.
Proof.
  split; [reflexivity|].
  destruct (@asset_report_sorted Demo.types Demo.collaborators (str ".")
              [str "development"; str "production"] Demo.stats Demo.world
              eq_refl) as (_ & _ & Hlen).
  rewrite Hlen. reflexivity.
Defined.

Lemma handler_without_stats_witness :
  heap Demo.startedWorld !! h_hasCalledCb Demo.startedHandler = Some (OCell false) /\
  callbacks
    (eventsOf (@handler _ Demo.collaborators Demo.buildCompiler Demo.startedHandler
                 (Some Demo.boom) None)
       (snd (@handler _ Demo.collaborators Demo.buildCompiler Demo.startedHandler
               None None Demo.startedWorld)))
  = [(UserCb 1, Some Demo.boom, None)].
Proof.
  split; [reflexivity|].
  apply (@handler_without_stats Demo.types Demo.collaborators Demo.buildCompiler
           Demo.startedHandler (Failed Demo.boom) Demo.startedWorld).
  reflexivity.
Defined.

Lemma package_json_fallback_witness :
  @existsSync _ Demo.collaborators
    (@path_join _ Demo.collaborators
       [@path_resolve _ Demo.collaborators [str "."]; str "package.json"])
  = false /\
  heap Demo.watchWorld !! 3%nat = Some OEmpty /\
  length (heap Demo.watchWorld) = 4%nat.
Proof.
  split; [reflexivity|].
  destruct (@package_json_fallback Demo.types Demo.collaborators Demo.watchArgs
              Demo.world) as [Hfresh _].
  destruct (Hfresh eq_refl) as (_ & _ & Hl & Hlen).
  split; [exact Hl|exact Hlen].
Defined.

Lemma middleware_one_continuation_witness :
  @dev _ Demo.collaborators 2%nat 5%nat = DevResponds /\
  eventsOf (@middleware _ Demo.collaborators 2%nat 5%nat 9%nat) Demo.world
  = [EDev 2 5].
Proof.
  split; [reflexivity|].
  apply (@middleware_one_continuation Demo.types Demo.collaborators 2%nat 5%nat
           9%nat Demo.world). reflexivity.
Defined.

(** ** Line separators in [dedupeErrors] *)

Module ReLines.
Import Re ReFacts ReMore.

(** The code units that [(.|\n)] does not match. *)
Lemma barrier_cases b :
  dotOrNl b = false -> b = 13%N \/ b = 8232%N \/ b = 8233%N.
Proof.
  unfold dotOrNl, isLineTerminator. intros H.
  destruct (b =? 10) eqn:E10; [discriminate H|].
  destruct (b =? 13) eqn:E13; [apply N.eqb_eq in E13; auto|].
  destruct (b =? 8232) eqn:E1; [apply N.eqb_eq in E1; auto|].
  destruct (b =? 8233) eqn:E2; [apply N.eqb_eq in E2; auto|].
  discriminate H.
Qed.

(** A literal none of whose code units matches [b] is matched in
    [a ++ b :: x] as it is in [a]. *)
Lemma matchLit_barrier lit a b x :
  forallb (fun p => negb (ciEq p b)) lit = true ->
  lit <> [] ->
  matchLit lit (a ++ b :: x)
  = match matchLit lit a with
    | Some (m, rest) => Some (m, rest ++ b :: x)
    | None => None
    end.
Proof.
  revert a. induction lit as [|p lit IH]; intros a Hall Hne; [congruence|].
  cbn [forallb] in Hall. apply andb_true_iff in Hall as [Hp Hall].
  destruct a as [|c a]; cbn [app matchLit].
  - apply negb_true_iff in Hp. rewrite Hp. reflexivity.
  - destruct (ciEq p c); [|reflexivity].
    destruct lit as [|q lit].
    + reflexivity.
    + rewrite IH by (assumption || discriminate).
      destruct (matchLit (q :: lit) a) as [[m rest]|]; reflexivity.
Qed.

Lemma marker_barrier b : dotOrNl b = false ->
  forallb (fun p => negb (ciEq p b)) marker = true.
Proof. intros H. destruct (barrier_cases b H) as [->|[->| ->]]; reflexivity. Qed.

Lemma atTranspile_barrier b : dotOrNl b = false ->
  forallb (fun p => negb (ciEq p b)) atTranspile = true.
Proof. intros H. destruct (barrier_cases b H) as [->|[->| ->]]; reflexivity. Qed.

Lemma plusThenTrace_barrier a b x :
  dotOrNl b = false ->
  plusThenTrace (a ++ b :: x)
  = match plusThenTrace a with
    | Some (g, rest) => Some (g, rest ++ b :: x)
    | None => None
    end.
Proof.
  intros Hb. induction a as [|c a IH]; cbn [app plusThenTrace].
  - rewrite Hb. reflexivity.
  - destruct (dotOrNl c); [|reflexivity]. rewrite IH.
    destruct (plusThenTrace a) as [[g rest]|]; [reflexivity|].
    apply matchLit_barrier; [apply atTranspile_barrier, Hb|discriminate].
Qed.

Lemma matchAt_barrier a b x :
  dotOrNl b = false ->
  matchAt (a ++ b :: x)
  = match matchAt a with
    | Some (g, rest) => Some (g, rest ++ b :: x)
    | None => None
    end.
Proof.
  intros Hb. unfold matchAt.
  rewrite matchLit_barrier by (apply marker_barrier, Hb || discriminate).
  destruct (matchLit marker a) as [[m s1]|]; [|reflexivity].
  apply plusThenTrace_barrier, Hb.
Qed.

Lemma matchAt_at_barrier b x : dotOrNl b = false -> matchAt (b :: x) = None.
Proof.
  intros Hb. change (b :: x) with ([] ++ b :: x).
  rewrite (matchAt_barrier [] b x Hb). reflexivity.
Qed.

Lemma replace_barrier n : forall a b x,
  (length a <= n)%nat -> dotOrNl b = false ->
  replace (a ++ b :: x) = replace a ++ b :: replace x.
Proof.
  induction n as [|n IH]; intros a b x Hn Hb.
  - destruct a; [|cbn [length] in Hn; lia]. cbn [app].
    rewrite (replace_eq (b :: x)), (matchAt_at_barrier b x Hb). reflexivity.
  - rewrite (replace_eq (a ++ b :: x)), (replace_eq a), matchAt_barrier by exact Hb.
    destruct (matchAt a) as [[g rest]|] eqn:E.
    + apply matchAt_shorter in E. rewrite IH by (lia || exact Hb).
      rewrite app_assoc. reflexivity.
    + destruct a as [|c a]; cbn [app]; [reflexivity|].
      cbn [length] in Hn. rewrite IH by (lia || exact Hb). reflexivity.
Qed.

End ReLines.

Section DedupeLines.
Import Re.

(** X17: a CR, U+2028 or U+2029 is a barrier for the replacement: no
    match goes across it, so the text before it and the text after it
    are rewritten each on its own and the separator is kept. *)
Theorem dedupe_line_separators a b x :
  (b = 13%N \/ b = 8232%N \/ b = 8233%N) ->
  replace (a ++ b :: x) = replace a ++ b :: replace x.
Proof.
  intros Hb. apply (ReLines.replace_barrier (length a)); [reflexivity|].
  destruct Hb as [->|[->| ->]]; reflexivity.
Qed.

End DedupeLines.

Lemma dedupe_line_separators_witness :
  Re.replace (str "BabelLoaderError: x" ++ 13%N :: str "    at transpile (a)")
  = str "BabelLoaderError: x" ++ 13%N :: str "    at transpile (a)".
Proof.
  rewrite (dedupe_line_separators (str "BabelLoaderError: x") 13%N
             (str "    at transpile (a)")) by (left; reflexivity).
  reflexivity.
Defined.
